(** * Evaluation metrics of the multi-modal brain segmentation repository

    A shallow embedding of [eval/evaluation_metric.py]: the Dice
    coefficient, the 95th-percentile Hausdorff distance and the volume
    similarity, each in its image-based variant ([getDSC], [getHausdorff],
    [getVS]) and in its array-based variant ([get_dice_score],
    [get_hausdorff_distance], [get_volumetric_symmetry]).

    Conventions of the embedding.
    - Voxel values and sums are integers ([Z]); quotients are exact
      rationals in canonical form ([Qc]), the idealisation of Python floats.
    - A Python exception is a [Raise] result; [None] is [PyNone]; the
      float not-a-number is [PyNaN].
    - A [dict] keeps its insertion order (association list).
    - A NumPy array is the list of its elements; where a result depends on
      the element type (the sums of [get_volumetric_symmetry]) the array
      carries it ([ndarray]).
    - Library functions (SimpleITK, NumPy, SciPy) are modelled by what
      they compute on the arguments the source passes. *)

From Stdlib Require Import String NArith ZArith QArith Qcanon Qminmax Qround.
From Stdlib Require Import List Bool Lia Lqa.
Import ListNotations.
Open Scope Z_scope.

(** ** Python values, exceptions and dictionaries *)

Inductive exn : Type :=
| ZeroDivisionError
| ValueError.

Inductive result (A : Type) : Type :=
| Ok (a : A)
| Raise (e : exn).
Arguments Ok {A} a.
Arguments Raise {A} e.

(** A Python float: a finite number, not-a-number or an infinity. *)
Inductive pyfloat : Type :=
| Finite (q : Qc)
| NaN
| Inf (negative : bool).

(** A metric value stored in a result dictionary: [None] or a float. *)
Inductive pyval : Type :=
| PyNone
| PyNum (q : Qc)
| PyNaN
| PyInf (negative : bool).

(** [1.0 - d]: not-a-number stays not-a-number, an infinity changes sign. *)
Definition one_minus (d : pyfloat) : pyval :=
  match d with
  | Finite q => PyNum (1 - q)%Qc
  | NaN => PyNaN
  | Inf negative => PyInf (negb negative)
  end.

Definition dict : Type := list (Z * pyval).

(** [d[k] = v]: overwrite in place, or append a new key at the end. *)
Fixpoint dict_set (d : dict) (k : Z) (v : pyval) : dict :=
  match d with
  | [] => [(k, v)]
  | (k', v') :: d' =>
      if k' =? k then (k', v) :: d' else (k', v') :: dict_set d' k v
  end.

Fixpoint dict_get (d : dict) (k : Z) : option pyval :=
  match d with
  | [] => None
  | (k', v') :: d' => if k' =? k then Some v' else dict_get d' k
  end.

Definition dict_keys (d : dict) : list Z := map fst d.

(** [for k in ks: s = body(s, k)], stopping at the first exception. *)
Fixpoint for_each {S : Type} (body : S -> Z -> result S) (ks : list Z) (s : S)
  : result S :=
  match ks with
  | [] => Ok s
  | k :: ks' =>
      match body s k with
      | Ok s' => for_each body ks' s'
      | Raise e => Raise e
      end
  end.

(** ** The label set *)

Definition labels : list (Z * string) :=
  [ (0, "Background"%string);
    (1, "Cortical gray matter"%string);
    (2, "Basal ganglia"%string);
    (3, "White matter"%string);
    (4, "White matter lesions"%string);
    (5, "Cerebrospinal fluid in the extracerebral space"%string);
    (6, "Ventricles"%string);
    (7, "Cerebellum"%string);
    (8, "Brain stem"%string) ].

(** [labels.keys()] *)
Definition labels_keys : list Z := map fst labels.

(** [range(9)] *)
Definition range9 : list Z := map Z.of_nat (seq 0 9).

(** ** Images and arrays *)

Definition index3 : Type := (Z * Z * Z)%type.
Definition point : Type := (Q * Q * Q)%type.

(** A SimpleITK image: its size [(nx, ny, nz)], its voxels in buffer order
    (x fastest, then y, then z) and its physical-space transform. *)
Record Image : Type := mkImage {
  img_size : index3;
  pixels : list Z;
  img_origin : point;
  img_spacing : point;
  img_direction : point * point * point   (* rows of the direction matrix *)
}.

Definition set_pixels (img : Image) (px : list Z) : Image :=
  mkImage (img_size img) px (img_origin img) (img_spacing img)
          (img_direction img).

(** [sitk.BinaryThreshold(img, lower, upper, inside, outside)] *)
Definition BinaryThreshold (img : Image) (lower upper inside outside : Z)
  : Image :=
  set_pixels img
    (map (fun v => if (lower <=? v) && (v <=? upper) then inside else outside)
         (pixels img)).

(** [sitk.GetArrayFromImage(img).flatten()]: the voxels in buffer order. *)
Definition GetArrayFromImage_flatten (img : Image) : list Z := pixels img.

Definition zsum (l : list Z) : Z := fold_right Z.add 0 l.

(** [StatisticsImageFilter.Execute(img); GetSum()] and [np.sum]. *)
Definition GetSum (img : Image) : Z := zsum (pixels img).
Definition np_sum (a : list Z) : Z := zsum a.

(** [np.where(a == k, a, 0)]: keeps the VALUE of [a] where it equals [k]. *)
Definition np_where_eq (a : list Z) (k : Z) : list Z :=
  map (fun v => if v =? k then v else 0) a.

(** ** Dice *)

(** NumPy broadcasting of two 1-D arrays in an element-wise operation. *)
Definition broadcast (u v : list Z) : result (list (Z * Z)) :=
  if (length u =? length v)%nat then Ok (combine u v)
  else if (length u =? 1)%nat then Ok (map (fun y => (hd 0 u, y)) v)
  else if (length v =? 1)%nat then Ok (map (fun x => (x, hd 0 v)) u)
  else Raise ValueError.

(** [scipy.spatial.distance.dice(u, v)] on integer arrays (converted to
    a signed 64-bit type, whatever their own integer type):
    [ntt = (u * v).sum()], [nft = ((1.0 - u) * v).sum()],
    [ntf = (u * (1.0 - v)).sum()] and
    [float((ntf + nft) / np.array(2.0 * ntt + ntf + nft))].  The quotient
    is a NumPy division: on a zero denominator it gives not-a-number (0/0)
    or an infinity, with a warning and without an exception.  The comment
    in the source, [dice raises a ZeroDivisionError if both arrays contain
    only zeros], describes the Python division of SciPy releases before
    1.0; with the NumPy division the [except ZeroDivisionError] handlers of
    [getDSC] and [get_dice_score] are never entered. *)
Definition dice (u v : list Z) : result pyfloat :=
  match broadcast u v with
  | Raise e => Raise e
  | Ok uv =>
      let ntt := zsum (map (fun p => fst p * snd p) uv) in
      let nft := zsum (map (fun p => (1 - fst p) * snd p) uv) in
      let ntf := zsum (map (fun p => fst p * (1 - snd p)) uv) in
      if 2 * ntt + ntf + nft =? 0
      then Ok (if ntf + nft =? 0 then NaN else Inf (ntf + nft <? 0))
      else Ok (Finite (Q2Qc (inject_Z (ntf + nft)
                             / inject_Z (2 * ntt + ntf + nft))))
  end.

(** Body of the loop of [getDSC]. *)
Definition getDSC_body (testImage resultImage : Image) (dsc : dict) (k : Z)
  : result dict :=
  let testArray :=
    GetArrayFromImage_flatten (BinaryThreshold testImage k k 1 0) in
  let resultArray :=
    GetArrayFromImage_flatten (BinaryThreshold resultImage k k 1 0) in
  match dice testArray resultArray with
  | Ok d => Ok (dict_set dsc k (one_minus d))
  | Raise ZeroDivisionError => Ok (dict_set dsc k PyNone)
  | Raise e => Raise e
  end.

Definition getDSC (testImage resultImage : Image) : result dict :=
  for_each (getDSC_body testImage resultImage) labels_keys [].

(** Body of the loop of [get_dice_score]: the handler prints a message
    and stores [0]. *)
Definition get_dice_score_body (lab2d pred2d : list Z) (dsc : dict) (k : Z)
  : result dict :=
  match dice (np_where_eq lab2d k) (np_where_eq pred2d k) with
  | Ok d => Ok (dict_set dsc k (one_minus d))
  | Raise ZeroDivisionError => Ok (dict_set dsc k (PyNum 0%Qc))
  | Raise e => Raise e
  end.

Definition get_dice_score (lab2d pred2d : list Z) : result dict :=
  for_each (get_dice_score_body lab2d pred2d) range9 [].

(** ** Volume similarity *)

(** [1 - float(numerator) / denominator] when [denominator > 0], else
    [None]. *)
Definition vs_value (numerator denominator : Z) : pyval :=
  if 0 <? denominator
  then PyNum (Q2Qc (1 - inject_Z numerator / inject_Z denominator))
  else PyNone.

Definition getVS_body (testImage resultImage : Image) (vs : dict) (k : Z)
  : dict :=
  let testSum := GetSum (BinaryThreshold testImage k k 1 0) in
  let resultSum := GetSum (BinaryThreshold resultImage k k 1 0) in
  let numerator := Z.abs (testSum - resultSum) in
  let denominator := testSum + resultSum in
  dict_set vs k (vs_value numerator denominator).

Definition getVS (testImage resultImage : Image) : dict :=
  fold_left (getVS_body testImage resultImage) labels_keys [].

(** The element type of a NumPy label array, as far as sums depend on it:
    [np.sum] of a signed integer array is an [int64], of an unsigned one
    (such as [uint8]) a [uint64], of a floating one a [float64]. *)
Inductive dtype : Type :=
| SignedInt
| UnsignedInt
| Floating.

Record ndarray : Type := mk_ndarray {
  array_dtype : dtype;
  array_data : list Z
}.

(** [np.where(a == k, a, 0)] keeps the element type of [a]. *)
Definition ndarray_where_eq (a : ndarray) (k : Z) : ndarray :=
  mk_ndarray (array_dtype a) (np_where_eq (array_data a) k).

Definition is_unsigned (a : ndarray) : bool :=
  match array_dtype a with
  | UnsignedInt => true
  | _ => false
  end.

(** The value of an unsigned 64-bit result: reduced modulo [2^64]. *)
Definition wrap_if (unsigned : bool) (d : Z) : Z :=
  if unsigned then d mod 2 ^ 64 else d.

(** [np.sum(a) - np.sum(b)].  Two [uint64] sums are subtracted modulo
    [2^64]: a difference below zero wraps around.  Every other pair of sum
    types is subtracted exactly ([int64], or [float64] when the types are
    mixed or floating).  A sum of labels itself stays far below [2^63],
    whatever array fits in memory, so no other operation leaves its
    range. *)
Definition np_subtract_sums (a b : ndarray) : Z :=
  wrap_if (is_unsigned a && is_unsigned b)
          (np_sum (array_data a) - np_sum (array_data b)).

Definition get_volumetric_symmetry_body (lab2d pred2d : ndarray) (vs : dict)
  (k : Z) : dict :=
  let gt_labels := ndarray_where_eq lab2d k in
  let pred_labels := ndarray_where_eq pred2d k in
  let numerator := Z.abs (np_subtract_sums gt_labels pred_labels) in
  let denominator :=
    np_sum (array_data gt_labels) + np_sum (array_data pred_labels) in
  dict_set vs k (vs_value numerator denominator).

Definition get_volumetric_symmetry (lab2d pred2d : ndarray) : dict :=
  fold_left (get_volumetric_symmetry_body lab2d pred2d) range9 [].

(** ** Voxel geometry *)

Definition in_bounds (img : Image) (p : index3) : bool :=
  let '(nx, ny, nz) := img_size img in
  let '(x, y, z) := p in
  (0 <=? x) && (x <? nx) && (0 <=? y) && (y <? ny) && (0 <=? z) && (z <? nz).

(** Position of voxel [(x, y, z)] in the buffer, and back. *)
Definition offset_of_index (img : Image) (p : index3) : Z :=
  let '(nx, ny, _) := img_size img in
  let '(x, y, z) := p in
  x + nx * (y + ny * z).

Definition index_of_offset (img : Image) (i : Z) : index3 :=
  let '(nx, ny, _) := img_size img in
  (i mod nx, (i / nx) mod ny, (i / nx) / ny).

Definition GetPixel (img : Image) (p : index3) : Z :=
  nth (Z.to_nat (offset_of_index img p)) (pixels img) 0.

Definition zrange (lo hi : Z) : list Z :=
  map (fun i => lo + Z.of_nat i) (seq 0 (Z.to_nat (hi - lo + 1))).

(** The structuring element of [sitkBall] with radius [(rx, ry, rz)], as
    offsets from the centre: ITK keeps the voxels of the box of that radius
    whose centre lies in the ellipsoid with axes [2 r + 1]. For radius
    [(1, 1, 0)] that is the whole 3x3x1 neighbourhood of a voxel inside its
    own slice. *)
Definition in_ellipsoid (radius d : index3) : bool :=
  let '(rx, ry, rz) := radius in
  let '(dx, dy, dz) := d in
  let term (r x : Z) : Q :=
    let u := (inject_Z (2 * x) / inject_Z (2 * r + 1))%Q in (u * u)%Q in
  Qle_bool (term rx dx + term ry dy + term rz dz) 1.

Definition sitkBall (radius : index3) : list index3 :=
  let '(rx, ry, rz) := radius in
  filter (in_ellipsoid radius)
    (flat_map (fun dz =>
       flat_map (fun dy =>
         map (fun dx => (dx, dy, dz)) (zrange (- rx) rx))
         (zrange (- ry) ry))
       (zrange (- rz) rz)).

Definition shift (p d : index3) : index3 :=
  let '(x, y, z) := p in
  let '(dx, dy, dz) := d in
  (x + dx, y + dy, z + dz).

(** One voxel of a binary erosion: a foreground voxel stays foreground when
    the whole structuring element around it is foreground, and becomes
    background otherwise; any other voxel is left as it is. A neighbour
    outside the image counts as foreground iff [boundaryToForeground]. *)
Definition erode_voxel (img : Image) (kernel : list index3)
  (backgroundValue foregroundValue : Z) (boundaryToForeground : bool)
  (p : index3) : Z :=
  let v := GetPixel img p in
  if v =? foregroundValue then
    if forallb (fun d =>
                  let q := shift p d in
                  if in_bounds img q then GetPixel img q =? foregroundValue
                  else boundaryToForeground) kernel
    then foregroundValue else backgroundValue
  else v.

Definition erode (img : Image) (kernel : list index3)
  (backgroundValue foregroundValue : Z) (boundaryToForeground : bool)
  : Image :=
  set_pixels img
    (map (fun i => erode_voxel img kernel backgroundValue foregroundValue
                     boundaryToForeground (index_of_offset img (Z.of_nat i)))
         (seq 0 (length (pixels img)))).

(** [sitk.Subtract(a, b)] on [sitkUInt8] images: voxel-wise, modulo 256. *)
Definition Subtract (a b : Image) : Image :=
  set_pixels a
    (map (fun p => (fst p - snd p) mod 256) (combine (pixels a) (pixels b))).

(** [np.transpose(np.flipud(np.nonzero(GetArrayFromImage(img))))]: the
    [(x, y, z)] indices of the non-zero voxels, in buffer order. *)
Definition nonzero_xyz (img : Image) : list index3 :=
  map (fun i => index_of_offset img (Z.of_nat i))
      (filter (fun i => negb (nth i (pixels img) 0 =? 0))
              (seq 0 (length (pixels img)))).

(** [img.TransformIndexToPhysicalPoint(idx)]:
    [origin + direction . (spacing * idx)]. *)
Definition TransformIndexToPhysicalPoint (img : Image) (idx : index3)
  : point :=
  let '(x, y, z) := idx in
  let '(ox, oy, oz) := img_origin img in
  let '(sx, sy, sz) := img_spacing img in
  let '(r1, r2, r3) := img_direction img in
  let u := (sx * inject_Z x, sy * inject_Z y, sz * inject_Z z)%Q in
  let row (r : point) (o : Q) : Q :=
    let '(a, b, c) := r in
    let '(ux, uy, uz) := u in
    (o + (a * ux + b * uy + c * uz))%Q in
  (row r1 ox, row r2 oy, row r3 oz).

(** The boundary image of [getHausdorff]: ORIGINAL - ERODED, with the
    erosion of [sitk.BinaryErode(mask, (1, 1, 0))]. *)
Definition boundary_image (mask : Image) : Image :=
  Subtract mask (erode mask (sitkBall (1, 1, 0)) 0 1 true).

(** ** NumPy percentile *)

Fixpoint insert_sorted (x : Q) (l : list Q) : list Q :=
  match l with
  | [] => [x]
  | y :: l' => if Qle_bool x y then x :: l else y :: insert_sorted x l'
  end.

Definition np_sort (l : list Q) : list Q := fold_right insert_sorted [] l.

(** [np.percentile(d, q)] with linear interpolation between the order
    statistics around the virtual index [q / 100 * (n - 1)]. The value on
    an empty array (not a number) is never requested: [KDTree.query]
    returns one distance for each of its one or more query points. *)
Definition np_percentile (d : list Q) (q : Z) : Q :=
  let s := np_sort d in
  let n := Z.of_nat (length s) in
  let rank := (inject_Z (q * (n - 1)) / 100)%Q in
  let lo := Qfloor rank in
  let hi := Z.min (lo + 1) (n - 1) in
  let frac := (rank - inject_Z lo)%Q in
  let a := nth (Z.to_nat lo) s 0%Q in
  let b := nth (Z.to_nat hi) s 0%Q in
  (a + (b - a) * frac)%Q.

(** ** Effects: the calls into the imaging and search libraries *)

(** What [scipy.spatial.KDTree] is handed at the two call sites: a Python
    list of 3-tuples, or the 3-dimensional array built by [np.reshape]. *)
Inductive array_like : Type :=
| PointList (pts : list point)
| Array3D (shape : N * N * N) (data : list Z).

Inductive event : Type :=
| EvBinaryErode (img : Image)
| EvKDTree (data : array_like)
| EvQuery (x : array_like).

(** A computation logs its library calls and returns or raises. *)
Definition M (A : Type) : Type := (list event * result A)%type.

Definition ret {A : Type} (a : A) : M A := ([], Ok a).
Definition raise {A : Type} (e : exn) : M A := ([], Raise e).
Definition emit (ev : event) : M unit := ([ev], Ok tt).
Definition lift {A : Type} (r : result A) : M A := ([], r).

Definition bind {A B : Type} (c : M A) (f : A -> M B) : M B :=
  match c with
  | (l1, Ok a) => let '(l2, r) := f a in (l1 ++ l2, r)
  | (l1, Raise e) => (l1, Raise e)
  end.

Declare Scope m_scope.
Delimit Scope m_scope with M.
Notation "x <- c1 ;; c2" := (bind c1 (fun x => c2))
  (at level 61, c1 at next level, right associativity) : m_scope.
Notation "c1 ;; c2" := (bind c1 (fun _ => c2))
  (at level 61, right associativity) : m_scope.

Definition events {A : Type} (c : M A) : list event := fst c.
Definition outcome {A : Type} (c : M A) : result A := snd c.

Fixpoint for_eachM {S : Type} (body : S -> Z -> M S) (ks : list Z) (s : S)
  : M S :=
  match ks with
  | [] => ret s
  | k :: ks' => (s' <- body s k ;; for_eachM body ks' s')%M
  end.

(** [sitk.BinaryErode(img, radius)] with the defaults of SimpleITK:
    [kernelType = sitkBall], [backgroundValue = 0], [foregroundValue = 1]
    and [boundaryToForeground = True]. *)
Definition BinaryErode (img : Image) (radius : index3) : M Image :=
  (emit (EvBinaryErode img) ;;
   ret (erode img (sitkBall radius) 0 1 true))%M.

(** ** Hausdorff distance *)

Section Hausdorff.

(** The square root of the Euclidean norm ([p=2] in [KDTree.query]). *)
Variable sqrtQ : Q -> Q.

Definition sqdist (a b : point) : Q :=
  let '(a1, a2, a3) := a in
  let '(b1, b2, b3) := b in
  ((a1 - b1) * (a1 - b1) + (a2 - b2) * (a2 - b2) + (a3 - b3) * (a3 - b3))%Q.

(** Distance from [q] to its nearest neighbour among [p :: ps]
    ([k=1], [eps=0]: the exact minimum). *)
Definition nearest_distance (p : point) (ps : list point) (q : point) : Q :=
  sqrtQ (fold_left Qmin (map (sqdist q) ps) (sqdist q p)).

(** [scipy.spatial.KDTree(data, leafsize=100)]: the data must have shape
    [(n, m)]. An empty Python list has shape [(0,)] and a reshaped volume
    has three dimensions: both raise [ValueError]. *)
Definition KDTree (data : array_like) : M (point * list point) :=
  (emit (EvKDTree data) ;;
   match data with
   | PointList (p :: ps) => ret (p, ps)
   | PointList [] => raise ValueError
   | Array3D _ _ => raise ValueError
   end)%M.

(** [kdTree.query(x, k=1, eps=0, p=2)[0]]: the last axis of [x] must have
    the dimension of the tree's points, so an empty list raises
    [ValueError]. (No tree is ever built from an [Array3D], so no
    [Array3D] reaches a query.) *)
Definition KDTree_query (tree : point * list point) (x : array_like)
  : M (list Q) :=
  (emit (EvQuery x) ;;
   match x with
   | PointList (q :: qs) =>
       ret (map (nearest_distance (fst tree) (snd tree)) (q :: qs))
   | PointList [] => raise ValueError
   | Array3D _ _ => raise ValueError
   end)%M.

(** The helper defined inside [getHausdorff] and again at module level,
    with the same body. *)
Definition getDistancesFromAtoB (a b : array_like) : M (list Q) :=
  (kdTree <- KDTree a ;;
   KDTree_query kdTree b)%M.

(** [max(np.percentile(d1, 95), np.percentile(d2, 95))] *)
Definition max_percentile95 (d1 d2 : list Q) : Qc :=
  Q2Qc (Qmax (np_percentile d1 95) (np_percentile d2 95)).

(** Body of the loop of [getHausdorff]. *)
Definition getHausdorff_body (testImage resultImage : Image) (hd : dict)
  (k : Z) : M dict :=
  let lTestImage := BinaryThreshold testImage k k 1 0 in
  let lResultImage := BinaryThreshold resultImage k k 1 0 in
  let lTestSum := GetSum lTestImage in
  let lResultSum := GetSum lResultImage in
  if (lTestSum =? 0) || (lResultSum =? 0) then
    ret (dict_set hd k PyNone)
  else
    (eTestImage <- BinaryErode lTestImage (1, 1, 0) ;;
     eResultImage <- BinaryErode lResultImage (1, 1, 0) ;;
     let hTestImage := Subtract lTestImage eTestImage in
     let hResultImage := Subtract lResultImage eResultImage in
     let testCoordinates :=
       map (TransformIndexToPhysicalPoint testImage)
           (nonzero_xyz hTestImage) in
     let resultCoordinates :=
       map (TransformIndexToPhysicalPoint resultImage)
           (nonzero_xyz hResultImage) in
     dTestToResult <- getDistancesFromAtoB (PointList testCoordinates)
                                           (PointList resultCoordinates) ;;
     dResultToTest <- getDistancesFromAtoB (PointList resultCoordinates)
                                           (PointList testCoordinates) ;;
     ret (dict_set hd k
            (PyNum (max_percentile95 dTestToResult dResultToTest))))%M.

Definition getHausdorff (testImage resultImage : Image) : M dict :=
  for_eachM (getHausdorff_body testImage resultImage) labels_keys [].

(** [np.reshape(a, [nx, ny, nz])] of a flat array. *)
Definition np_reshape (a : list Z) (shape : N * N * N) : result array_like :=
  let '(nx, ny, nz) := shape in
  if (N.of_nat (length a) =? nx * ny * nz)%N then Ok (Array3D shape a)
  else Raise ValueError.

(** Body of the loop of [get_hausdorff_distance]: no test on the masks
    comes before the two searches. *)
Definition get_hausdorff_distance_body (lab2d pred2d : list Z)
  (h_dist : dict) (k : Z) : M dict :=
  (gt_val <- lift (np_reshape (np_where_eq lab2d k) (220, 220, 48)%N) ;;
   pred_val <- lift (np_reshape (np_where_eq pred2d k) (220, 220, 48)%N) ;;
   dTestToResult <- getDistancesFromAtoB gt_val pred_val ;;
   dResultToTest <- getDistancesFromAtoB pred_val gt_val ;;
   ret (dict_set h_dist k
          (PyNum (max_percentile95 dTestToResult dResultToTest))))%M.

Definition get_hausdorff_distance (lab2d pred2d : list Z) : M dict :=
  for_eachM (get_hausdorff_distance_body lab2d pred2d) range9 [].

(** ** The value of one label in [getHausdorff]

    The loop body of [getHausdorff] once more, as a value and without the
    log of library calls: the proofs about [getHausdorff] go through it. *)

(** [BinaryThreshold(img, k, k, 1, 0)], voxel by voxel. *)
Definition label_mask (vol : Image) (label : Z) : Image :=
  set_pixels vol (map (fun v => if v =? label then 1 else 0) (pixels vol)).

Definition mask_is_empty (mask : Image) : bool :=
  forallb (fun v => v =? 0) (pixels mask).

(** The indices [np.nonzero] finds in ORIGINAL - ERODED: the voxels that
    are 1 in the mask and 0 in the eroded mask. *)
Definition boundary_indices (mask : Image) : list index3 :=
  let eroded := erode mask (sitkBall (1, 1, 0)) 0 1 true in
  map (fun i => index_of_offset mask (Z.of_nat i))
      (filter (fun i => (nth i (pixels mask) 0 =? 1)
                        && (nth i (pixels eroded) 0 =? 0))
              (seq 0 (length (pixels mask)))).

(** [getDistancesFromAtoB(A, B)] on two lists of points: for every point
    of [B], the distance to the nearest point of [A]; an empty list makes
    the search tree or the query raise. *)
Definition directed_distances (A B : list point) : result (list Q) :=
  match A, B with
  | p :: ps, _ :: _ => Ok (map (nearest_distance p ps) B)
  | _, _ => Raise ValueError
  end.

Definition hausdorff95_value (label : Z) (testVol resultVol : Image)
  : result pyval :=
  let testMask := label_mask testVol label in
  let resultMask := label_mask resultVol label in
  if mask_is_empty testMask || mask_is_empty resultMask then Ok PyNone
  else
    let testPoints :=
      map (TransformIndexToPhysicalPoint testVol) (boundary_indices testMask) in
    let resultPoints :=
      map (TransformIndexToPhysicalPoint resultVol)
          (boundary_indices resultMask) in
    match directed_distances testPoints resultPoints with
    | Raise e => Raise e
    | Ok d1 =>
        match directed_distances resultPoints testPoints with
        | Raise e => Raise e
        | Ok d2 =>
            Ok (PyNum (Q2Qc (Qmax (np_percentile d1 95)
                                  (np_percentile d2 95))))
        end
    end.

End Hausdorff.

(** A square root that is exact on squares of rationals, for running the
    model on examples. *)
Definition sqrtQ_floor (q : Q) : Q :=
  Qmake (Z.sqrt (Qnum q * Zpos (Qden q))) (Qden q).

(** ** Example volumes *)

Definition identity_direction : point * point * point :=
  ((1, 0, 0), (0, 1, 0), (0, 0, 1))%Q.

(** A volume of the given size with unit spacing at the origin. *)
Definition volume (size : index3) (px : list Z) : Image :=
  mkImage size px (0, 0, 0)%Q (1, 1, 1)%Q identity_direction.

(** Two 4x4 slices holding label 1 on a square and on a wider block. *)
Definition square_volume : Image :=
  volume (4, 4, 1) [0; 0; 0; 0;  0; 1; 1; 0;  0; 1; 1; 0;  0; 0; 0; 0].

Definition block_volume : Image :=
  volume (4, 4, 1) [0; 0; 0; 0;  0; 1; 1; 1;  0; 1; 1; 1;  0; 0; 0; 0].

(** One 4x4 slice that label 1 fills. *)
Definition filled_slice : Image := volume (4, 4, 1) (repeat 1 16).

(** A 2x2x2 volume with label 1 at (0,0,0) and (1,1,1). *)
Definition two_corners : Image := volume (2, 2, 2) [1; 0; 0; 0; 0; 0; 0; 1].

(** A volume of one voxel, labelled 1. *)
Definition single_voxel : Image := volume (1, 1, 1) [1].

(** A flat array of 220 * 220 * 48 voxels that all carry label [v]. *)
Definition full_volume (v : Z) : list Z :=
  repeat v (N.to_nat (220 * 220 * 48)).

(** Number of voxels of a flat array that carry label [k]. *)
Definition voxel_count (k : Z) (a : list Z) : Z :=
  Z.of_nat (count_occ Z.eq_dec a k).

(** The 0/1 indicator of label [k]. *)
Definition indicator (k : Z) (a : list Z) : list Z :=
  map (fun v => if v =? k then 1 else 0) a.

(** A loop body that stores [val k] under key [k], or propagates the
    exception of [val k]. *)
Definition setter (val : Z -> result pyval) (s : dict) (k : Z) : result dict :=
  match val k with
  | Ok v => Ok (dict_set s k v)
  | Raise e => Raise e
  end.

(** The value [getDSC] stores for one label. *)
Definition getDSC_value (testImage resultImage : Image) (k : Z)
  : result pyval :=
  match dice (GetArrayFromImage_flatten (BinaryThreshold testImage k k 1 0))
             (GetArrayFromImage_flatten (BinaryThreshold resultImage k k 1 0))
  with
  | Ok d => Ok (one_minus d)
  | Raise ZeroDivisionError => Ok PyNone
  | Raise e => Raise e
  end.

(** The value [get_dice_score] stores for one label. *)
Definition get_dice_score_value (lab2d pred2d : list Z) (k : Z)
  : result pyval :=
  match dice (np_where_eq lab2d k) (np_where_eq pred2d k) with
  | Ok d => Ok (one_minus d)
  | Raise ZeroDivisionError => Ok (PyNum 0%Qc)
  | Raise e => Raise e
  end.

(** The value [get_volumetric_symmetry] stores for one label, in terms of
    the numbers of voxels that carry the label. *)
Definition get_volumetric_symmetry_value (lab2d pred2d : ndarray) (k : Z)
  : pyval :=
  let A := voxel_count k (array_data lab2d) in
  let B := voxel_count k (array_data pred2d) in
  vs_value
    (Z.abs (wrap_if (is_unsigned lab2d && is_unsigned pred2d)
                    (k * A - k * B)))
    (k * A + k * B).

Definition value_or_none (r : result pyval) : pyval :=
  match r with
  | Ok v => v
  | Raise _ => PyNone
  end.

(** One voxel of ORIGINAL - ERODED. *)
Definition boundary_voxel (mask : Image) (i : nat) : Z :=
  (nth i (pixels mask) 0
   - erode_voxel mask (sitkBall (1, 1, 0)) 0 1 true
       (index_of_offset mask (Z.of_nat i))) mod 256.

(** A 2x2x2 volume of background with slices 3 units apart, placed at
    the given origin. *)
Definition slab_at (origin : point) : Image :=
  mkImage (2, 2, 2) [0; 0; 0; 0; 0; 0; 0; 0] origin (1, 1, 3)%Q
          identity_direction.

(** ** Loading and evaluating one case *)

(** [img.CopyInformation(src)]: the origin, spacing and direction of
    [src]. (It requires equal sizes, which [getImages] asserts first.) *)
Definition CopyInformation (img src : Image) : Image :=
  mkImage (img_size img) (pixels img) (img_origin src) (img_spacing src)
          (img_direction src).

(** [sitk.Mask(image, maskImage)] with its defaults [outsideValue = 0] and
    [maskingValue = 0]: a voxel is kept where the mask is not 0 and set to
    0 where it is. *)
Definition Mask (image maskImage : Image) : Image :=
  set_pixels image
    (map (fun p => if snd p =? 0 then 0 else fst p)
         (combine (pixels image) (pixels maskImage))).

Definition size_eqb (a b : index3) : bool :=
  let '(ax, ay, az) := a in
  let '(bx, by_, bz) := b in
  (ax =? bx) && (ay =? by_) && (az =? bz).

(** [getImages] on the two images [sitk.ReadImage] has read; [None] is the
    failed assertion on the sizes. Voxels are integers here, so the cast
    of a non-integer result image does not arise. *)
Definition getImages (testImage resultImage : Image)
  : option (Image * Image) :=
  if size_eqb (img_size testImage) (img_size resultImage) then
    let resultImage := CopyInformation resultImage testImage in
    let pathologyImage := BinaryThreshold testImage 9 11 0 1 in
    let maskedTestImage := Mask testImage pathologyImage in
    let maskedResultImage := Mask resultImage pathologyImage in
    Some (maskedTestImage, maskedResultImage)
  else None.

(** A buffer that holds one voxel per index of a non-empty size. *)
Definition well_formed (img : Image) : bool :=
  let '(nx, ny, nz) := img_size img in
  (0 <? nx) && (0 <? ny) && (0 <? nz)
  && (Z.of_nat (length (pixels img)) =? nx * ny * nz).

(** One iteration of [evaluate_stats], after the two files are read: the
    three mappings that are printed. [None] is the failed assertion. *)
Definition evaluate_case (sqrtQ : Q -> Q) (testImage resultImage : Image)
  : option (M (dict * dict * dict)) :=
  match getImages testImage resultImage with
  | None => None
  | Some (test_file, result_file) =>
      Some (dsc <- lift (getDSC test_file result_file) ;;
            h95 <- getHausdorff sqrtQ test_file result_file ;;
            ret (dsc, h95, getVS test_file result_file))%M
  end.

(** Number of voxel positions that carry label [k] in both arrays. *)
Definition overlap_count (k : Z) (a b : list Z) : Z :=
  Z.of_nat (length (filter (fun p => (fst p =? k) && (snd p =? k))
                           (combine a b))).

(** * Properties *)

(** ** Dictionaries and loops *)

Lemma dict_get_set (d : dict) (k k' : Z) (v : pyval) :
  dict_get (dict_set d k v) k' = if k =? k' then Some v else dict_get d k'.
Proof.
  induction d as [|[a w] d IH]; simpl.
  - reflexivity.
  - destruct (a =? k) eqn:Eak; simpl.
    + apply Z.eqb_eq in Eak; subst a. destruct (k =? k'); reflexivity.
    + destruct (a =? k') eqn:Eak'.
      * apply Z.eqb_eq in Eak'; subst a.
        rewrite Z.eqb_sym, Eak. reflexivity.
      * exact IH.
Qed.

Lemma dict_keys_set_new (d : dict) (k : Z) (v : pyval) :
  ~ In k (dict_keys d) -> dict_keys (dict_set d k v) = dict_keys d ++ [k].
Proof.
  induction d as [|[a w] d IH]; simpl; intros Hn.
  - reflexivity.
  - destruct (a =? k) eqn:Eak.
    + apply Z.eqb_eq in Eak. tauto.
    + simpl. f_equal. apply IH. tauto.
Qed.

Lemma dict_keys_fold (g : Z -> pyval) (ks : list Z) :
  forall d, NoDup (dict_keys d ++ ks) ->
  dict_keys (fold_left (fun s k => dict_set s k (g k)) ks d)
  = dict_keys d ++ ks.
Proof.
  induction ks as [|k ks IH]; simpl; intros d Hnd.
  - now rewrite app_nil_r.
  - assert (Hk : ~ In k (dict_keys d)).
    { apply NoDup_remove_2 in Hnd. intros Hin. apply Hnd.
      apply in_or_app. now left. }
    rewrite IH; rewrite (dict_keys_set_new d k (g k) Hk).
    + now rewrite <- app_assoc.
    + now rewrite <- app_assoc.
Qed.

Lemma dict_get_fold (g : Z -> pyval) (k : Z) (ks : list Z) :
  forall d, In k ks \/ dict_get d k = Some (g k) ->
  dict_get (fold_left (fun s k => dict_set s k (g k)) ks d) k = Some (g k).
Proof.
  induction ks as [|a ks IH]; simpl; intros d H.
  - destruct H as [[]|H]. exact H.
  - apply IH. rewrite dict_get_set.
    destruct (a =? k) eqn:Eak.
    + apply Z.eqb_eq in Eak; subst a. now right.
    + destruct H as [[H|H]|H].
      * subst a. rewrite Z.eqb_refl in Eak. discriminate.
      * now left.
      * now right.
Qed.

Lemma for_each_ext {S : Type} (f g : S -> Z -> result S) (ks : list Z) :
  (forall s k, f s k = g s k) ->
  forall s, for_each f ks s = for_each g ks s.
Proof.
  intros Hfg. induction ks as [|k ks IH]; simpl; intros s.
  - reflexivity.
  - rewrite Hfg. destruct (g s k); [apply IH | reflexivity].
Qed.

(** A setter loop whose values are all defined runs to its end. *)
Lemma for_each_setter_total (val : Z -> result pyval) (g : Z -> pyval)
  (ks : list Z) :
  (forall k, In k ks -> val k = Ok (g k)) ->
  forall s, for_each (setter val) ks s
            = Ok (fold_left (fun s k => dict_set s k (g k)) ks s).
Proof.
  induction ks as [|k ks IH]; simpl; intros Hval s.
  - reflexivity.
  - unfold setter at 1. rewrite (Hval k (or_introl eq_refl)).
    apply IH. intros k' Hk'. apply Hval. now right.
Qed.

(** A setter loop that returns has evaluated every value. *)
Lemma for_each_setter_inv (val : Z -> result pyval) (ks : list Z) :
  forall s d, for_each (setter val) ks s = Ok d ->
  exists g, (forall k, In k ks -> val k = Ok (g k)) /\
            d = fold_left (fun s k => dict_set s k (g k)) ks s.
Proof.
  induction ks as [|k ks IH]; simpl; intros s d H.
  - exists (fun _ => PyNone). split; [intros k []|]. now inversion H.
  - unfold setter at 1 in H. destruct (val k) as [v|e] eqn:Ev; [|discriminate].
    destruct (IH _ _ H) as [g [Hg Hd]].
    exists (fun k' => match val k' with Ok w => w | Raise _ => g k' end).
    split.
    + intros k' [Hk'|Hk'].
      * subst k'. now rewrite Ev.
      * rewrite (Hg k' Hk'). reflexivity.
    + rewrite Ev. subst d. clear -Hg.
      assert (Hfold : forall l s0, (forall k', In k' l -> val k' = Ok (g k')) ->
        fold_left (fun s1 k0 => dict_set s1 k0 (g k0)) l s0
        = fold_left (fun s1 k0 => dict_set s1 k0
            match val k0 with Ok w => w | Raise _ => g k0 end) l s0).
      { induction l as [|a l IHl]; simpl; intros s0 Hl; [reflexivity|].
        rewrite (Hl a (or_introl eq_refl)). apply IHl.
        intros k' Hk'. apply Hl. now right. }
      apply Hfold. exact Hg.
Qed.

Lemma labels_keys_eq : labels_keys = [0; 1; 2; 3; 4; 5; 6; 7; 8].
Proof. reflexivity. Qed.

Lemma range9_eq : range9 = [0; 1; 2; 3; 4; 5; 6; 7; 8].
Proof. reflexivity. Qed.

Lemma NoDup_labels_keys : NoDup ([] ++ labels_keys).
Proof.
  rewrite labels_keys_eq. simpl.
  repeat (constructor; [simpl; intuition discriminate|]). constructor.
Qed.

Lemma In_labels_keys (k : Z) : In k labels_keys <-> 0 <= k <= 8.
Proof.
  rewrite labels_keys_eq. simpl. lia.
Qed.

(** ** Masks and sums *)

Lemma threshold_eqb (k v : Z) : (k <=? v) && (v <=? k) = (v =? k).
Proof.
  destruct (v =? k) eqn:E.
  - apply Z.eqb_eq in E; subst v. now rewrite Z.leb_refl.
  - apply Z.eqb_neq in E.
    destruct (k <=? v) eqn:E1; destruct (v <=? k) eqn:E2; simpl; try reflexivity.
    apply Z.leb_le in E1, E2. lia.
Qed.

Lemma pixels_BinaryThreshold (img : Image) (k : Z) :
  pixels (BinaryThreshold img k k 1 0) = indicator k (pixels img).
Proof.
  unfold BinaryThreshold, indicator; simpl.
  apply map_ext. intros v. now rewrite threshold_eqb.
Qed.

Lemma BinaryThreshold_label_mask (img : Image) (k : Z) :
  BinaryThreshold img k k 1 0 = label_mask img k.
Proof.
  unfold BinaryThreshold, label_mask. f_equal.
  apply map_ext. intros v. now rewrite threshold_eqb.
Qed.

Lemma indicator_length (k : Z) (a : list Z) :
  length (indicator k a) = length a.
Proof. apply length_map. Qed.

Lemma np_where_eq_length (a : list Z) (k : Z) :
  length (np_where_eq a k) = length a.
Proof. apply length_map. Qed.

Lemma zsum_indicator (k : Z) (a : list Z) :
  zsum (indicator k a) = voxel_count k a.
Proof.
  unfold voxel_count. induction a as [|v a IH]; simpl.
  - reflexivity.
  - rewrite IH. destruct (Z.eq_dec v k) as [E|E].
    + subst v. rewrite Z.eqb_refl. lia.
    + apply Z.eqb_neq in E. rewrite E. lia.
Qed.

Lemma zsum_np_where_eq (k : Z) (a : list Z) :
  zsum (np_where_eq a k) = k * voxel_count k a.
Proof.
  unfold voxel_count. induction a as [|v a IH]; simpl.
  - lia.
  - rewrite IH. destruct (Z.eq_dec v k) as [E|E].
    + subst v. rewrite Z.eqb_refl. lia.
    + apply Z.eqb_neq in E. rewrite E. lia.
Qed.

Lemma voxel_count_nonneg (k : Z) (a : list Z) : 0 <= voxel_count k a.
Proof. unfold voxel_count. lia. Qed.

Lemma voxel_count_zero (k : Z) (a : list Z) :
  voxel_count k a = 0 <-> ~ In k a.
Proof.
  unfold voxel_count. rewrite (count_occ_not_In Z.eq_dec). lia.
Qed.

Lemma voxel_count_pos (k : Z) (a : list Z) :
  0 < voxel_count k a <-> In k a.
Proof.
  unfold voxel_count. rewrite (count_occ_In Z.eq_dec). lia.
Qed.

Lemma indicator_binary (k : Z) (a : list Z) :
  Forall (fun v => v = 0 \/ v = 1) (indicator k a).
Proof.
  unfold indicator. apply Forall_forall. intros v Hv.
  apply in_map_iff in Hv. destruct Hv as [w [Hw _]].
  destruct (w =? k); auto.
Qed.

(** The label-0 selection of [np.where] is identically zero. *)
Lemma np_where_eq_zero (a : list Z) :
  np_where_eq a 0 = repeat 0 (length a).
Proof.
  unfold np_where_eq. induction a as [|v a IH]; simpl.
  - reflexivity.
  - rewrite IH. destruct (v =? 0) eqn:E.
    + apply Z.eqb_eq in E. now subst v.
    + reflexivity.
Qed.

(** ** The Dice dissimilarity *)

Lemma broadcast_same_length (u v : list Z) :
  length u = length v -> broadcast u v = Ok (combine u v).
Proof.
  intros H. unfold broadcast. now rewrite H, Nat.eqb_refl.
Qed.

Lemma zsum_fst_combine (u : list Z) :
  forall v : list Z,
  length u = length v -> zsum (map fst (combine u v)) = zsum u.
Proof.
  induction u as [|a u IH]; intros [|b v] H; simpl in *; try discriminate.
  - reflexivity.
  - rewrite IH; [reflexivity | lia].
Qed.

Lemma zsum_snd_combine (u : list Z) :
  forall v : list Z,
  length u = length v -> zsum (map snd (combine u v)) = zsum v.
Proof.
  induction u as [|a u IH]; intros [|b v] H; simpl in *; try discriminate.
  - reflexivity.
  - rewrite IH; [reflexivity | lia].
Qed.

Lemma zsum_cons (a : Z) (l : list Z) : zsum (a :: l) = a + zsum l.
Proof. reflexivity. Qed.

(** The denominator [2 ntt + ntf + nft] is the sum of both arrays. *)
Lemma dice_denominator (uv : list (Z * Z)) :
  2 * zsum (map (fun p => fst p * snd p) uv)
  + zsum (map (fun p => fst p * (1 - snd p)) uv)
  + zsum (map (fun p => (1 - fst p) * snd p) uv)
  = zsum (map fst uv) + zsum (map snd uv).
Proof.
  induction uv as [|[a b] uv IH]; [reflexivity|].
  cbn [map fst snd]. rewrite !zsum_cons.
  transitivity
    (a + b + (2 * zsum (map (fun p => fst p * snd p) uv)
              + zsum (map (fun p => fst p * (1 - snd p)) uv)
              + zsum (map (fun p => (1 - fst p) * snd p) uv))).
  - ring.
  - rewrite IH. ring.
Qed.

(** On a 0/1 array compared with itself the numerator [ntf + nft] is 0. *)
Lemma dice_numerator_self (m : list Z) :
  Forall (fun v => v = 0 \/ v = 1) m ->
  zsum (map (fun p => fst p * (1 - snd p)) (combine m m)) = 0 /\
  zsum (map (fun p => (1 - fst p) * snd p) (combine m m)) = 0.
Proof.
  induction 1 as [|a m Ha _ [IH1 IH2]].
  - split; reflexivity.
  - cbn [map fst snd combine]. rewrite !zsum_cons, IH1, IH2.
    destruct Ha; subst a; split; reflexivity.
Qed.

Lemma dice_same_length (u v : list Z) :
  length u = length v ->
  dice u v =
    let uv := combine u v in
    let nft := zsum (map (fun p => (1 - fst p) * snd p) uv) in
    let ntf := zsum (map (fun p => fst p * (1 - snd p)) uv) in
    if zsum u + zsum v =? 0
    then Ok (if ntf + nft =? 0 then NaN else Inf (ntf + nft <? 0))
    else Ok (Finite (Q2Qc (inject_Z (ntf + nft)
                           / inject_Z (zsum u + zsum v)))).
Proof.
  intros H. unfold dice. rewrite (broadcast_same_length u v H). cbv zeta.
  rewrite dice_denominator.
  now rewrite (zsum_fst_combine u v H), (zsum_snd_combine u v H).
Qed.

Lemma Qc_one_minus (q : Q) : (1 - Q2Qc q)%Qc = Q2Qc (1 - q).
Proof.
  apply Qc_is_canon. unfold Qcminus, Qcplus, Qcopp. cbn [this Q2Qc].
  rewrite !Qred_correct. reflexivity.
Qed.

Lemma Q2Qc_zero_div (d : Z) : Q2Qc (1 - inject_Z 0 / inject_Z d) = 1%Qc.
Proof.
  apply Qc_is_canon. cbn [this Q2Qc]. rewrite !Qred_correct.
  unfold Qdiv. rewrite Qmult_0_l. reflexivity.
Qed.

(** The three sums of [dice] vanish on pairs of zeros. *)
Lemma zsum_pairs_of_zeros (g : Z * Z -> Z) (uv : list (Z * Z)) :
  g (0, 0) = 0 -> Forall (fun p => p = (0, 0)) uv -> zsum (map g uv) = 0.
Proof.
  intros Hg. induction 1 as [|p uv Hp _ IH]; [reflexivity|].
  cbn [map]. rewrite zsum_cons, IH, Hp, Hg. reflexivity.
Qed.

Lemma broadcast_zeros (u v : list Z) (uv : list (Z * Z)) :
  Forall (fun x => x = 0) u -> Forall (fun x => x = 0) v ->
  broadcast u v = Ok uv -> Forall (fun p => p = (0, 0)) uv.
Proof.
  intros Hu Hv. rewrite Forall_forall in Hu, Hv. unfold broadcast.
  assert (Hhd : forall l : list Z, (forall x, In x l -> x = 0) -> hd 0 l = 0).
  { intros [|a l] Hl; [reflexivity|]. apply Hl. now left. }
  destruct (length u =? length v)%nat;
    [|destruct (length u =? 1)%nat; [|destruct (length v =? 1)%nat]];
    intros E; inversion E; subst uv; clear E; apply Forall_forall.
  - intros [a b] Hin. pose proof (in_combine_l _ _ _ _ Hin) as Ha.
    pose proof (in_combine_r _ _ _ _ Hin) as Hb.
    now rewrite (Hu a Ha), (Hv b Hb).
  - intros p Hin. apply in_map_iff in Hin. destruct Hin as (y & <- & Hy).
    now rewrite (Hhd u Hu), (Hv y Hy).
  - intros p Hin. apply in_map_iff in Hin. destruct Hin as (x & <- & Hx).
    now rewrite (Hhd v Hv), (Hu x Hx).
Qed.

(** Dice of two arrays of zeros: the quotient 0/0, whatever their lengths
    are, unless the shapes do not broadcast. *)
Lemma dice_of_zeros (u v : list Z) :
  Forall (fun x => x = 0) u -> Forall (fun x => x = 0) v ->
  dice u v = Ok NaN \/ dice u v = Raise ValueError.
Proof.
  intros Hu Hv. unfold dice.
  pose proof (broadcast_zeros u v) as Hb.
  destruct (broadcast u v) as [uv|[]] eqn:E.
  - left. specialize (Hb uv Hu Hv eq_refl). cbv zeta.
    rewrite !(zsum_pairs_of_zeros _ uv) by (exact Hb || reflexivity).
    reflexivity.
  - exfalso. unfold broadcast in E.
    destruct (length u =? length v)%nat; [discriminate|].
    destruct (length u =? 1)%nat; [discriminate|].
    destruct (length v =? 1)%nat; discriminate.
  - now right.
Qed.

Lemma dice_zero_masks (u v : list Z) :
  length u = length v ->
  Forall (fun x => x = 0) u -> Forall (fun x => x = 0) v ->
  dice u v = Ok NaN.
Proof.
  intros H Hu Hv. destruct (dice_of_zeros u v Hu Hv) as [E|E]; [exact E|].
  unfold dice in E. rewrite (broadcast_same_length u v H) in E.
  cbv zeta in E. destruct (_ =? 0) in E; discriminate.
Qed.

Lemma indicator_absent (k : Z) (a : list Z) :
  ~ In k a -> Forall (fun x => x = 0) (indicator k a).
Proof.
  intros Hn. apply Forall_forall. intros x Hx. unfold indicator in Hx.
  apply in_map_iff in Hx. destruct Hx as (v & <- & Hv).
  destruct (Z.eqb_spec v k); [subst; contradiction | reflexivity].
Qed.

Lemma np_where_eq_degenerate (k : Z) (a : list Z) :
  k = 0 \/ ~ In k a -> Forall (fun x => x = 0) (np_where_eq a k).
Proof.
  intros Hk. apply Forall_forall. intros x Hx. unfold np_where_eq in Hx.
  apply in_map_iff in Hx. destruct Hx as (v & <- & Hv).
  destruct (Z.eqb_spec v k); [|reflexivity].
  destruct Hk as [->|Hn]; [assumption | subst; contradiction].
Qed.

(** [1.0 - dice(m, m)] of a non-empty 0/1 mask is 1. *)
Lemma dice_self_mask (m : list Z) :
  Forall (fun v => v = 0 \/ v = 1) m -> 0 < zsum m ->
  match dice m m with
  | Ok d => one_minus d = PyNum 1%Qc
  | Raise _ => False
  end.
Proof.
  intros Hb Hpos. rewrite (dice_same_length m m eq_refl). cbv zeta.
  destruct (dice_numerator_self m Hb) as [H1 H2]. rewrite H1, H2.
  destruct (zsum m + zsum m =? 0) eqn:E.
  - apply Z.eqb_eq in E. lia.
  - cbn [one_minus]. apply (f_equal PyNum). rewrite Qc_one_minus.
    apply (Q2Qc_zero_div (zsum m + zsum m)).
Qed.

(** ** The Dice loops *)

Lemma getDSC_body_setter (t r : Image) (s : dict) (k : Z) :
  getDSC_body t r s k = setter (getDSC_value t r) s k.
Proof.
  unfold getDSC_body, setter, getDSC_value.
  destruct (dice _ _) as [d|[]]; reflexivity.
Qed.

Lemma get_dice_score_body_setter (lab pred : list Z) (s : dict) (k : Z) :
  get_dice_score_body lab pred s k = setter (get_dice_score_value lab pred) s k.
Proof.
  unfold get_dice_score_body, setter, get_dice_score_value.
  destruct (dice _ _) as [d|[]]; reflexivity.
Qed.

(** [dice] raises on no two arrays of one length: the handlers of the two
    Dice loops are not entered. *)
Lemma dice_defined (u v : list Z) :
  length u = length v -> exists d, dice u v = Ok d.
Proof.
  intros H. rewrite (dice_same_length u v H). cbv zeta.
  destruct (zsum u + zsum v =? 0); eauto.
Qed.

Lemma dice_never_divides_by_zero (u v : list Z) :
  dice u v <> Raise ZeroDivisionError.
Proof.
  unfold dice. destruct (broadcast u v) as [uv|e] eqn:E.
  - cbv zeta. destruct (_ =? 0); discriminate.
  - unfold broadcast in E.
    destruct (length u =? length v)%nat; [discriminate|].
    destruct (length u =? 1)%nat; [discriminate|].
    destruct (length v =? 1)%nat; [discriminate|].
    inversion E. discriminate.
Qed.

Lemma getDSC_value_defined (t r : Image) (k : Z) :
  length (pixels t) = length (pixels r) ->
  getDSC_value t r k = Ok (value_or_none (getDSC_value t r k)).
Proof.
  intros H. unfold getDSC_value, GetArrayFromImage_flatten.
  rewrite !pixels_BinaryThreshold.
  destruct (dice_defined (indicator k (pixels t)) (indicator k (pixels r)))
    as [d E]; [now rewrite !indicator_length|]; now rewrite E.
Qed.

Lemma get_dice_score_value_defined (lab pred : list Z) (k : Z) :
  length lab = length pred ->
  get_dice_score_value lab pred k
  = Ok (value_or_none (get_dice_score_value lab pred k)).
Proof.
  intros H. unfold get_dice_score_value.
  destruct (dice_defined (np_where_eq lab k) (np_where_eq pred k))
    as [d E]; [now rewrite !np_where_eq_length|]; now rewrite E.
Qed.

Lemma getDSC_total (t r : Image) :
  length (pixels t) = length (pixels r) ->
  getDSC t r
  = Ok (fold_left
          (fun s k => dict_set s k (value_or_none (getDSC_value t r k)))
          labels_keys []).
Proof.
  intros H. unfold getDSC.
  rewrite (for_each_ext _ _ labels_keys (getDSC_body_setter t r)).
  apply for_each_setter_total. intros k _. now apply getDSC_value_defined.
Qed.

Lemma get_dice_score_total (lab pred : list Z) :
  length lab = length pred ->
  get_dice_score lab pred
  = Ok (fold_left
          (fun s k =>
             dict_set s k (value_or_none (get_dice_score_value lab pred k)))
          range9 []).
Proof.
  intros H. unfold get_dice_score.
  rewrite (for_each_ext _ _ range9 (get_dice_score_body_setter lab pred)).
  apply for_each_setter_total. intros k _.
  now apply get_dice_score_value_defined.
Qed.

(** A label absent from both volumes: [getDSC] stores not-a-number. *)
Lemma getDSC_value_absent (t r : Image) (k : Z) :
  length (pixels t) = length (pixels r) ->
  ~ In k (pixels t) -> ~ In k (pixels r) ->
  getDSC_value t r k = Ok PyNaN.
Proof.
  intros H Ht Hr. unfold getDSC_value, GetArrayFromImage_flatten.
  rewrite !pixels_BinaryThreshold, dice_zero_masks; try reflexivity.
  - now rewrite !indicator_length.
  - now apply indicator_absent.
  - now apply indicator_absent.
Qed.

(** The selections of [np.where] are all zero for label 0 and for a label
    that is absent: [get_dice_score] then stores not-a-number. *)
Lemma get_dice_score_value_degenerate (lab pred : list Z) (k : Z) :
  length lab = length pred ->
  k = 0 \/ (~ In k lab /\ ~ In k pred) ->
  get_dice_score_value lab pred k = Ok PyNaN.
Proof.
  intros H Hk. unfold get_dice_score_value.
  rewrite dice_zero_masks; try reflexivity.
  - now rewrite !np_where_eq_length.
  - apply np_where_eq_degenerate. tauto.
  - apply np_where_eq_degenerate. tauto.
Qed.

(** A label present in the volume: [getDSC] of the volume with itself
    stores 1. *)
Lemma getDSC_value_self (t : Image) (k : Z) :
  In k (pixels t) -> getDSC_value t t k = Ok (PyNum 1%Qc).
Proof.
  intros Hin. unfold getDSC_value, GetArrayFromImage_flatten.
  rewrite !pixels_BinaryThreshold.
  pose proof (dice_self_mask (indicator k (pixels t))
                (indicator_binary k (pixels t))) as Hd.
  rewrite zsum_indicator in Hd. apply voxel_count_pos in Hin.
  specialize (Hd Hin).
  destruct (dice (indicator k (pixels t)) (indicator k (pixels t))) as [d|e].
  - now rewrite Hd.
  - contradiction.
Qed.

(** ** The volume-similarity loops *)

Lemma getVS_fold (t r : Image) :
  getVS t r
  = fold_left
      (fun s k =>
         dict_set s k
           (vs_value
              (Z.abs (voxel_count k (pixels t) - voxel_count k (pixels r)))
              (voxel_count k (pixels t) + voxel_count k (pixels r))))
      labels_keys [].
Proof.
  unfold getVS. generalize (@nil (Z * pyval)).
  induction labels_keys as [|k ks IH]; intros s; [reflexivity|].
  cbn [fold_left]. rewrite IH. f_equal.
  unfold getVS_body, GetSum.
  now rewrite !pixels_BinaryThreshold, !zsum_indicator.
Qed.

Lemma get_volumetric_symmetry_fold (lab pred : ndarray) :
  get_volumetric_symmetry lab pred
  = fold_left
      (fun s k => dict_set s k (get_volumetric_symmetry_value lab pred k))
      range9 [].
Proof.
  unfold get_volumetric_symmetry. generalize (@nil (Z * pyval)).
  induction range9 as [|k ks IH]; intros s; [reflexivity|].
  cbn [fold_left]. rewrite IH. f_equal.
  unfold get_volumetric_symmetry_body, get_volumetric_symmetry_value,
    np_subtract_sums, np_sum, ndarray_where_eq, is_unsigned.
  cbn [array_dtype array_data].
  now rewrite !zsum_np_where_eq.
Qed.

(** The label value [k > 0] cancels in the quotient. *)
Lemma vs_value_scale (k A B : Z) :
  0 < k -> 0 <= A -> 0 <= B ->
  vs_value (Z.abs (k * A - k * B)) (k * A + k * B)
  = vs_value (Z.abs (A - B)) (A + B).
Proof.
  intros Hk HA HB. unfold vs_value.
  replace (k * A + k * B) with (k * (A + B)) by ring.
  replace (k * A - k * B) with (k * (A - B)) by ring.
  rewrite Z.abs_mul, (Z.abs_eq k) by lia.
  destruct (0 <? A + B) eqn:E.
  - apply Z.ltb_lt in E.
    assert (E' : (0 <? k * (A + B)) = true) by (apply Z.ltb_lt; nia).
    rewrite E'. f_equal. apply Q2Qc_eq_iff.
    rewrite !inject_Z_mult.
    assert (Hk' : ~ (inject_Z k == 0)).
    { intros H. apply (inject_Z_injective k 0) in H. lia. }
    assert (Hd : ~ (inject_Z (A + B) == 0)).
    { intros H. apply (inject_Z_injective (A + B) 0) in H. lia. }
    field. split; assumption.
  - apply Z.ltb_ge in E.
    assert (E' : (0 <? k * (A + B)) = false) by (apply Z.ltb_ge; nia).
    now rewrite E'.
Qed.

(** [1 - |A - B| / (A + B)] lies in [[0, 1]] and is 1 exactly for equal
    counts. *)
Lemma vs_fraction_range (A B : Z) :
  0 <= A -> 0 <= B -> 0 < A + B ->
  let q := Q2Qc (1 - inject_Z (Z.abs (A - B)) / inject_Z (A + B)) in
  (0 <= q)%Qc /\ (q <= 1)%Qc /\ (q = 1%Qc <-> A = B).
Proof.
  intros HA HB Hpos q.
  assert (Hn : 0 <= Z.abs (A - B) <= A + B) by lia.
  assert (Hz : Z.abs (A - B) = 0 <-> A = B) by lia.
  subst q. revert Hn Hz. generalize (Z.abs (A - B)) as n.
  destruct (A + B) as [|d|d] eqn:Ed; try lia. intros n Hn Hz.
  assert (Hq : 1 - inject_Z n / inject_Z (Z.pos d) == (Z.pos d - n) # d).
  { rewrite <- Qmake_Qdiv.
    unfold Qeq, Qminus, Qplus, Qopp. cbn [Qnum Qden].
    rewrite ?Pos.mul_1_l, ?Pos.mul_1_r. first [ring | lia]. }
  repeat split.
  - unfold Qcle. cbn [this Q2Qc]. rewrite !Qred_correct, Hq.
    unfold Qle. cbn [Qnum Qden].
    rewrite ?Pos.mul_1_l, ?Pos.mul_1_r. first [ring | lia].
  - unfold Qcle. cbn [this Q2Qc]. rewrite !Qred_correct, Hq.
    unfold Qle. cbn [Qnum Qden].
    rewrite ?Pos.mul_1_l, ?Pos.mul_1_r. first [ring | lia].
  - intros H. apply Hz. apply Q2Qc_eq_iff in H. rewrite Hq in H.
    unfold Qeq in H. cbn [Qnum Qden] in H.
    rewrite ?Pos.mul_1_l, ?Pos.mul_1_r in H. lia.
  - intros H. apply Hz in H. subst n. apply Q2Qc_eq_iff. rewrite Hq.
    unfold Qeq. cbn [Qnum Qden].
    rewrite ?Pos.mul_1_l, ?Pos.mul_1_r. first [ring | lia].
Qed.

Lemma vs_value_defined (n d : Z) :
  0 < d -> vs_value n d = PyNum (Q2Qc (1 - inject_Z n / inject_Z d)).
Proof.
  intros H. unfold vs_value. apply Z.ltb_lt in H. now rewrite H.
Qed.

Lemma vs_value_undefined (n d : Z) : d <= 0 -> vs_value n d = PyNone.
Proof.
  intros H. unfold vs_value. apply Z.ltb_ge in H. now rewrite H.
Qed.

Lemma getVS_get (t r : Image) (k : Z) :
  In k labels_keys ->
  dict_get (getVS t r) k
  = Some (vs_value
            (Z.abs (voxel_count k (pixels t) - voxel_count k (pixels r)))
            (voxel_count k (pixels t) + voxel_count k (pixels r))).
Proof.
  intros Hk. rewrite getVS_fold.
  apply (dict_get_fold
           (fun k => vs_value
              (Z.abs (voxel_count k (pixels t) - voxel_count k (pixels r)))
              (voxel_count k (pixels t) + voxel_count k (pixels r)))).
  now left.
Qed.

Lemma get_volumetric_symmetry_get (lab pred : ndarray) (k : Z) :
  In k range9 ->
  dict_get (get_volumetric_symmetry lab pred) k
  = Some (get_volumetric_symmetry_value lab pred k).
Proof.
  intros Hk. rewrite get_volumetric_symmetry_fold.
  apply (dict_get_fold (get_volumetric_symmetry_value lab pred)).
  now left.
Qed.

(** Label 0, and a label that neither array holds: both sums are 0, in
    every element type, and the value is the undefined marker. *)
Lemma get_volumetric_symmetry_value_degenerate (lab pred : ndarray) (k : Z) :
  k = 0 \/ (~ In k (array_data lab) /\ ~ In k (array_data pred)) ->
  get_volumetric_symmetry_value lab pred k = PyNone.
Proof.
  intros Hk. unfold get_volumetric_symmetry_value.
  assert (HA : k * voxel_count k (array_data lab) = 0).
  { destruct Hk as [->|[Hl _]]; [reflexivity|].
    apply voxel_count_zero in Hl. rewrite Hl. lia. }
  assert (HB : k * voxel_count k (array_data pred) = 0).
  { destruct Hk as [->|[_ Hp]]; [reflexivity|].
    apply voxel_count_zero in Hp. rewrite Hp. lia. }
  rewrite HA, HB. apply vs_value_undefined. lia.
Qed.

(** Unless both arrays are unsigned, the difference of the sums is exact
    and the label value [k > 0] cancels. *)
Lemma get_volumetric_symmetry_value_exact (lab pred : ndarray) (k : Z) :
  0 < k -> is_unsigned lab && is_unsigned pred = false ->
  get_volumetric_symmetry_value lab pred k
  = vs_value
      (Z.abs (voxel_count k (array_data lab)
              - voxel_count k (array_data pred)))
      (voxel_count k (array_data lab) + voxel_count k (array_data pred)).
Proof.
  intros Hk Hu. unfold get_volumetric_symmetry_value. rewrite Hu.
  cbn [wrap_if]. apply vs_value_scale; [exact Hk | |];
    apply voxel_count_nonneg.
Qed.

(** Two unsigned arrays: the difference is exact as long as the first
    array holds at least as many voxels of the label as the second. *)
Lemma get_volumetric_symmetry_value_unsigned (lab pred : ndarray) (k : Z) :
  0 < k ->
  voxel_count k (array_data pred) <= voxel_count k (array_data lab) ->
  k * voxel_count k (array_data lab) < 2 ^ 64 ->
  get_volumetric_symmetry_value lab pred k
  = vs_value
      (Z.abs (voxel_count k (array_data lab)
              - voxel_count k (array_data pred)))
      (voxel_count k (array_data lab) + voxel_count k (array_data pred)).
Proof.
  intros Hk Hle Hlt. unfold get_volumetric_symmetry_value.
  pose proof (voxel_count_nonneg k (array_data pred)) as HB.
  assert (Hw : forall u, wrap_if u (k * voxel_count k (array_data lab)
                                    - k * voxel_count k (array_data pred))
                         = k * voxel_count k (array_data lab)
                           - k * voxel_count k (array_data pred)).
  { intros [|]; [|reflexivity]. cbn [wrap_if]. apply Z.mod_small.
    revert Hlt. generalize (2 ^ 64). intros m Hlt.
    assert (0 <= k * voxel_count k (array_data pred)
            <= k * voxel_count k (array_data lab)).
    { split; [apply Z.mul_nonneg_nonneg; lia|].
      apply Z.mul_le_mono_nonneg_l; lia. }
    lia. }
  rewrite Hw. apply vs_value_scale; [exact Hk | |];
    apply voxel_count_nonneg.
Qed.

(** [getVS] computes the volume similarity of the claim at every label:
    undefined for [A + B = 0], else [1 - |A - B| / (A + B)], a value of
    [[0, 1]] that is 1 exactly when [A = B]. *)
Lemma getVS_volume_similarity (t r : Image) (k : Z) :
  In k labels_keys ->
  let A := voxel_count k (pixels t) in
  let B := voxel_count k (pixels r) in
  (A + B = 0 -> dict_get (getVS t r) k = Some PyNone) /\
  (0 < A + B ->
   exists q, dict_get (getVS t r) k = Some (PyNum q) /\
             q = Q2Qc (1 - inject_Z (Z.abs (A - B)) / inject_Z (A + B)) /\
             (0 <= q)%Qc /\ (q <= 1)%Qc /\ (q = 1%Qc <-> A = B)).
Proof.
  intros Hk A B. rewrite (getVS_get t r k Hk). fold A B. split.
  - intros H. rewrite vs_value_undefined; [reflexivity | lia].
  - intros H. rewrite vs_value_defined by exact H.
    eexists. split; [reflexivity|]. split; [reflexivity|].
    apply vs_fraction_range; try exact H; apply voxel_count_nonneg.
Qed.

(** ** What the four Dice and volume-similarity mappings contain *)

Lemma getDSC_mapping (t r : Image) :
  length (pixels t) = length (pixels r) ->
  exists d, getDSC t r = Ok d /\
            dict_keys d = [0; 1; 2; 3; 4; 5; 6; 7; 8] /\
            forall k, In k labels_keys ->
                      dict_get d k = Some (value_or_none (getDSC_value t r k)).
Proof.
  intros H. eexists. split; [apply (getDSC_total t r H)|]. split.
  - apply (dict_keys_fold (fun k => value_or_none (getDSC_value t r k))
             labels_keys [] NoDup_labels_keys).
  - intros k Hk.
    apply (dict_get_fold (fun k => value_or_none (getDSC_value t r k))).
    now left.
Qed.

Lemma get_dice_score_mapping (lab pred : list Z) :
  length lab = length pred ->
  exists d, get_dice_score lab pred = Ok d /\
            dict_keys d = [0; 1; 2; 3; 4; 5; 6; 7; 8] /\
            forall k, In k range9 ->
              dict_get d k
              = Some (value_or_none (get_dice_score_value lab pred k)).
Proof.
  intros H. eexists. split; [apply (get_dice_score_total lab pred H)|]. split.
  - apply (dict_keys_fold
             (fun k => value_or_none (get_dice_score_value lab pred k))
             range9 [] NoDup_labels_keys).
  - intros k Hk.
    apply (dict_get_fold
             (fun k => value_or_none (get_dice_score_value lab pred k))).
    now left.
Qed.

Lemma getVS_keys (t r : Image) :
  dict_keys (getVS t r) = [0; 1; 2; 3; 4; 5; 6; 7; 8].
Proof.
  rewrite getVS_fold.
  apply (dict_keys_fold
           (fun k => vs_value
              (Z.abs (voxel_count k (pixels t) - voxel_count k (pixels r)))
              (voxel_count k (pixels t) + voxel_count k (pixels r)))
           labels_keys [] NoDup_labels_keys).
Qed.

Lemma get_volumetric_symmetry_keys (lab pred : ndarray) :
  dict_keys (get_volumetric_symmetry lab pred) = [0; 1; 2; 3; 4; 5; 6; 7; 8].
Proof.
  rewrite get_volumetric_symmetry_fold.
  apply (dict_keys_fold (get_volumetric_symmetry_value lab pred)
           range9 [] NoDup_labels_keys).
Qed.

Lemma mask_all_zero (k : Z) (a : list Z) :
  Forall (fun v => v = 0) (indicator k a) <-> ~ In k a.
Proof.
  unfold indicator. rewrite Forall_forall. split.
  - intros H Hin.
    specialize (H (if k =? k then 1 else 0)).
    rewrite Z.eqb_refl in H. discriminate H.
    apply in_map_iff. exists k. now rewrite Z.eqb_refl.
  - intros Hn v Hv. apply in_map_iff in Hv. destruct Hv as [w [Hw Hin]].
    destruct (w =? k) eqn:E; [|now symmetry].
    apply Z.eqb_eq in E. subst w. contradiction.
Qed.

(** [getDSC] of a volume with itself stores 1 at every label present. *)
Lemma getDSC_self (t : Image) (k : Z) :
  In k labels_keys -> In k (pixels t) ->
  exists d, getDSC t t = Ok d /\ dict_get d k = Some (PyNum 1%Qc).
Proof.
  intros Hk Hin. destruct (getDSC_mapping t t eq_refl) as [d [Hd [_ Hget]]].
  exists d. split; [exact Hd|].
  rewrite (Hget k Hk). now rewrite (getDSC_value_self t k Hin).
Qed.

Lemma np_where_eq_self_products (k : Z) (a : list Z) :
  let w := np_where_eq a k in
  zsum (map (fun p => fst p * (1 - snd p)) (combine w w))
    = k * (1 - k) * voxel_count k a /\
  zsum (map (fun p => (1 - fst p) * snd p) (combine w w))
    = k * (1 - k) * voxel_count k a.
Proof.
  unfold voxel_count, np_where_eq. induction a as [|v a [IH1 IH2]].
  - cbn [map combine count_occ Z.of_nat]. unfold zsum. cbn [fold_right].
    split; ring.
  - cbn [map combine fst snd count_occ]. rewrite !zsum_cons, IH1, IH2.
    destruct (Z.eq_dec v k) as [E|E].
    + subst v. rewrite Z.eqb_refl, Nat2Z.inj_succ. split; ring.
    + apply Z.eqb_neq in E. rewrite E. split; ring.
Qed.

(** [get_dice_score] of an array with itself stores the label value [k],
    not 1, at a label [k >= 1] that is present. *)
Lemma get_dice_score_value_self (lab : list Z) (k : Z) :
  0 < k -> In k lab ->
  get_dice_score_value lab lab k = Ok (PyNum (Q2Qc (inject_Z k))).
Proof.
  intros Hk Hin. unfold get_dice_score_value.
  rewrite (dice_same_length _ _ eq_refl). cbv zeta.
  destruct (np_where_eq_self_products k lab) as [H1 H2]. rewrite H1, H2.
  rewrite zsum_np_where_eq. apply voxel_count_pos in Hin.
  set (c := voxel_count k lab) in *.
  assert (Hkc : 0 < k * c) by (apply Z.mul_pos_pos; assumption).
  destruct (k * c + k * c =? 0) eqn:E.
  - apply Z.eqb_eq in E. lia.
  - cbn [one_minus]. apply (f_equal Ok), (f_equal PyNum).
    rewrite Qc_one_minus. apply Q2Qc_eq_iff.
    replace (k * (1 - k) * c + k * (1 - k) * c) with ((1 - k) * (k * c + k * c))
      by ring.
    rewrite inject_Z_mult.
    assert (Hd : ~ (inject_Z (k * c + k * c) == 0)).
    { intros H. apply Z.eqb_neq in E. apply E.
      unfold Qeq in H. cbn [Qnum Qden inject_Z] in H. lia. }
    unfold Zminus. rewrite inject_Z_plus, inject_Z_opp.
    field. exact Hd.
Qed.

(** ** Dice on empty masks *)

(** For same-shaped volumes and a label of the label set whose two binary
    masks are entirely zero, both Dice functions store not-a-number. *)
Lemma dice_functions_nan_on_empty_masks (t r : Image) (k : Z) :
  In k labels_keys ->
  length (pixels t) = length (pixels r) ->
  Forall (fun v => v = 0) (pixels (BinaryThreshold t k k 1 0)) ->
  Forall (fun v => v = 0) (pixels (BinaryThreshold r k k 1 0)) ->
  (exists d, getDSC t r = Ok d /\ dict_get d k = Some PyNaN) /\
  (exists d, get_dice_score (pixels t) (pixels r) = Ok d /\
             dict_get d k = Some PyNaN).
Proof.
  intros Hk Hshape Ht Hr.
  rewrite pixels_BinaryThreshold in Ht, Hr.
  apply mask_all_zero in Ht, Hr. split.
  - destruct (getDSC_mapping t r Hshape) as [d [Hd [_ Hget]]].
    exists d. split; [exact Hd|].
    rewrite (Hget k Hk). now rewrite (getDSC_value_absent t r k Hshape Ht Hr).
  - destruct (get_dice_score_mapping _ _ Hshape) as [d [Hd [_ Hget]]].
    exists d. split; [exact Hd|].
    rewrite (Hget k Hk).
    rewrite (get_dice_score_value_degenerate _ _ k Hshape); [reflexivity|].
    right. now split.
Qed.

(** C1 (the code at the failing input). Label 3 occurs in neither of two
    same-shaped volumes, so both of its masks are entirely zero. Neither
    Dice function stores the undefined marker [None] for it: [dice] returns
    not-a-number for 0/0 instead of raising, the handlers of
    [ZeroDivisionError] are not entered, and both [getDSC] and
    [get_dice_score] store not-a-number under label 3. *)
Theorem dice_of_empty_masks :
  Forall (fun v => v = 0)
         (pixels (BinaryThreshold (volume (2, 1, 1) [1; 2]) 3 3 1 0)) /\
  Forall (fun v => v = 0)
         (pixels (BinaryThreshold (volume (2, 1, 1) [1; 1]) 3 3 1 0)) /\
  dice (indicator 3 [1; 2]) (indicator 3 [1; 1]) = Ok NaN /\
  (exists d, getDSC (volume (2, 1, 1) [1; 2]) (volume (2, 1, 1) [1; 1]) = Ok d
             /\ dict_get d 3 = Some PyNaN /\ dict_get d 3 <> Some PyNone) /\
  (exists d, get_dice_score [1; 2] [1; 1] = Ok d /\
             dict_get d 3 = Some PyNaN /\ dict_get d 3 <> Some PyNone).
Proof.
  assert (H1 : Forall (fun v => v = 0)
                 (pixels (BinaryThreshold (volume (2, 1, 1) [1; 2]) 3 3 1 0)))
    by repeat constructor.
  assert (H2 : Forall (fun v => v = 0)
                 (pixels (BinaryThreshold (volume (2, 1, 1) [1; 1]) 3 3 1 0)))
    by repeat constructor.
  assert (Hk : In 3 labels_keys) by (rewrite labels_keys_eq; simpl; tauto).
  destruct (dice_functions_nan_on_empty_masks
              (volume (2, 1, 1) [1; 2]) (volume (2, 1, 1) [1; 1]) 3
              Hk eq_refl H1 H2) as [[d [Hd Hg]] [d' [Hd' Hg']]].
  split; [exact H1|]. split; [exact H2|]. split; [reflexivity|]. split.
  - exists d. split; [exact Hd|]. split; [exact Hg|].
    rewrite Hg. discriminate.
  - exists d'. split; [exact Hd'|]. split; [exact Hg'|].
    rewrite Hg'. discriminate.
Qed.

(** ** Dice of a mask with itself *)

(** C8 (the code at the failing inputs). In [get_dice_score] a volume
    compared with itself does not score 1 at every label with a non-empty
    mask: the background label scores not-a-number, and label 2 scores 2. *)
Theorem get_dice_score_self_not_one :
  (In 0 [0; 2] /\
   exists d, get_dice_score [0; 2] [0; 2] = Ok d /\
             dict_get d 0 = Some PyNaN) /\
  (In 2 [0; 2] /\
   exists d, get_dice_score [0; 2] [0; 2] = Ok d /\
             dict_get d 2 = Some (PyNum (Q2Qc 2))).
Proof.
  destruct (get_dice_score_mapping [0; 2] [0; 2] eq_refl) as [d [Hd [_ Hget]]].
  split; (split; [simpl; tauto|]); exists d; (split; [exact Hd|]).
  - rewrite (Hget 0) by (rewrite range9_eq; simpl; tauto).
    rewrite (get_dice_score_value_degenerate _ _ 0 eq_refl); [reflexivity|].
    now left.
  - rewrite (Hget 2) by (rewrite range9_eq; simpl; tauto).
    rewrite (get_dice_score_value_self [0; 2] 2); [reflexivity | lia |].
    simpl; tauto.
Qed.

(** ** Volume similarity *)

(** C5 (the code at the failing input). Both volumes hold one background
    voxel, so [A = B = 1] at label 0 and the volume similarity is 1, as
    [getVS] reports; [get_volumetric_symmetry] reports the undefined marker
    for that label, whatever the element types of the two arrays. *)
Theorem get_volumetric_symmetry_background_undefined :
  voxel_count 0 [0; 1] = 1 /\ voxel_count 0 [0; 2] = 1 /\
  dict_get (getVS (volume (2, 1, 1) [0; 1]) (volume (2, 1, 1) [0; 2])) 0
    = Some (PyNum 1%Qc) /\
  forall dl dp : dtype,
    dict_get (get_volumetric_symmetry (mk_ndarray dl [0; 1])
                                      (mk_ndarray dp [0; 2])) 0
    = Some PyNone.
Proof.
  split; [reflexivity|]. split; [reflexivity|]. split.
  - rewrite getVS_get by (rewrite labels_keys_eq; simpl; tauto).
    rewrite vs_value_defined by reflexivity.
    do 2 f_equal. apply Qc_is_canon. reflexivity.
  - intros dl dp.
    rewrite get_volumetric_symmetry_get by (rewrite range9_eq; simpl; tauto).
    rewrite get_volumetric_symmetry_value_degenerate; [reflexivity | now left].
Qed.

(** Whatever the shapes, the Dice of two label-0 selections is the
    quotient 0/0, unless the shapes do not broadcast. *)
Lemma get_dice_score_value_background (lab pred : list Z) :
  get_dice_score_value lab pred 0 = Ok PyNaN \/
  get_dice_score_value lab pred 0 = Raise ValueError.
Proof.
  unfold get_dice_score_value.
  destruct (dice_of_zeros (np_where_eq lab 0) (np_where_eq pred 0)) as [E|E];
    try (apply np_where_eq_degenerate; now left);
    rewrite E; [now left | now right].
Qed.

(** The array-based variants degenerate on the background label: the
    label-0 selections [np.where(x == 0, x, 0)] are identically zero, so
    for same-shaped arrays [get_dice_score] returns a mapping, every
    mapping it returns holds not-a-number under label 0 (the quotient 0/0
    of [dice], which does not raise), and [get_volumetric_symmetry] stores
    the undefined marker under label 0, whatever the arrays hold and
    whatever their element types. *)
Lemma array_variants_on_background (lab2d pred2d : list Z) :
  length lab2d = length pred2d ->
  np_where_eq lab2d 0 = repeat 0 (length lab2d) /\
  np_where_eq pred2d 0 = repeat 0 (length pred2d) /\
  (exists d, get_dice_score lab2d pred2d = Ok d /\
             dict_get d 0 = Some PyNaN) /\
  (forall a b d, get_dice_score a b = Ok d -> dict_get d 0 = Some PyNaN) /\
  (forall a b : ndarray,
     dict_get (get_volumetric_symmetry a b) 0 = Some PyNone).
Proof.
  intros Hshape.
  assert (Hvs : forall a b : ndarray,
            dict_get (get_volumetric_symmetry a b) 0 = Some PyNone).
  { intros a b.
    rewrite get_volumetric_symmetry_get by (rewrite range9_eq; simpl; tauto).
    rewrite get_volumetric_symmetry_value_degenerate; [reflexivity|].
    now left. }
  assert (Hdice : forall a b d, get_dice_score a b = Ok d ->
                                dict_get d 0 = Some PyNaN).
  { intros a b d Hd. unfold get_dice_score in Hd.
    rewrite (for_each_ext _ _ range9 (get_dice_score_body_setter a b)) in Hd.
    destruct (for_each_setter_inv _ _ _ _ Hd) as [g [Hg Hfold]].
    assert (H0 : In 0 range9) by (rewrite range9_eq; simpl; tauto).
    rewrite Hfold, (dict_get_fold g 0 range9 [] (or_introl H0)).
    specialize (Hg 0 H0).
    destruct (get_dice_score_value_background a b) as [E|E];
      rewrite E in Hg; [|discriminate].
    inversion Hg. reflexivity. }
  split; [apply np_where_eq_zero|]. split; [apply np_where_eq_zero|].
  split; [|split; [exact Hdice | exact Hvs]].
  destruct (get_dice_score_mapping _ _ Hshape) as [d [Hd _]].
  exists d. split; [exact Hd | exact (Hdice _ _ _ Hd)].
Qed.

(** C9 (the code at the failing input). Background voxels exist in both
    arrays. The label-0 selections are identically zero and
    [get_volumetric_symmetry] stores the undefined marker under label 0;
    but [get_dice_score] does not map label 0 to the number 0: the
    quotient 0/0 of [dice] is not-a-number, no [ZeroDivisionError] is
    raised, the handler that would store 0 is not entered, and
    not-a-number is stored. *)
Theorem array_variants_degenerate_on_background :
  In 0 [0; 0; 1] /\ In 0 [0; 2; 0] /\
  np_where_eq [0; 0; 1] 0 = [0; 0; 0] /\
  np_where_eq [0; 2; 0] 0 = [0; 0; 0] /\
  dice (np_where_eq [0; 0; 1] 0) (np_where_eq [0; 2; 0] 0) = Ok NaN /\
  (exists d, get_dice_score [0; 0; 1] [0; 2; 0] = Ok d /\
             dict_get d 0 = Some PyNaN /\
             dict_get d 0 <> Some (PyNum 0%Qc)) /\
  (forall dl dp : dtype,
     dict_get (get_volumetric_symmetry (mk_ndarray dl [0; 0; 1])
                                       (mk_ndarray dp [0; 2; 0])) 0
     = Some PyNone).
Proof.
  destruct (array_variants_on_background [0; 0; 1] [0; 2; 0] eq_refl)
    as (_ & _ & [d [Hd H0]] & _ & Hvs).
  split; [simpl; tauto|]. split; [simpl; tauto|].
  split; [reflexivity|]. split; [reflexivity|]. split; [reflexivity|].
  split.
  - exists d. split; [exact Hd|]. split; [exact H0|].
    rewrite H0. discriminate.
  - intros dl dp. apply Hvs.
Qed.

(** X22. For a label [1 <= k <= 8] the value-sum based
    [get_volumetric_symmetry] agrees with the voxel-count based [getVS]
    unless both arrays are unsigned, and for two unsigned arrays as long as
    the first holds at least as many voxels of the label as the second:
    the selections sum to [k * A] and [k * B], the factor [k] cancels, and
    both store [1 - |A - B| / (A + B)] when [A + B > 0] and the undefined
    marker when [A + B = 0]. *)
Theorem get_volumetric_symmetry_agrees_without_wrap (t r : Image)
  (dt dr : dtype) (k : Z) (Hk : 1 <= k <= 8)
  (Hw : is_unsigned (mk_ndarray dt (GetArrayFromImage_flatten t))
        && is_unsigned (mk_ndarray dr (GetArrayFromImage_flatten r)) = false
        \/ (voxel_count k (pixels r) <= voxel_count k (pixels t)
            /\ k * voxel_count k (pixels t) < 2 ^ 64)) :
  let A := voxel_count k (pixels t) in
  let B := voxel_count k (pixels r) in
  let lab2d := mk_ndarray dt (GetArrayFromImage_flatten t) in
  let pred2d := mk_ndarray dr (GetArrayFromImage_flatten r) in
  np_sum (np_where_eq (GetArrayFromImage_flatten t) k) = k * A /\
  np_sum (np_where_eq (GetArrayFromImage_flatten r) k) = k * B /\
  GetSum (BinaryThreshold t k k 1 0) = A /\
  GetSum (BinaryThreshold r k k 1 0) = B /\
  dict_get (get_volumetric_symmetry lab2d pred2d) k
    = dict_get (getVS t r) k /\
  (0 < A + B ->
   dict_get (getVS t r) k
   = Some (PyNum (Q2Qc (1 - inject_Z (Z.abs (A - B)) / inject_Z (A + B))))) /\
  (A + B = 0 -> dict_get (getVS t r) k = Some PyNone).
Proof.
  intros A B lab2d pred2d.
  unfold GetArrayFromImage_flatten, np_sum, GetSum.
  rewrite !zsum_np_where_eq, !pixels_BinaryThreshold, !zsum_indicator.
  fold A B. do 4 (split; [reflexivity|]).
  assert (Hl : In k labels_keys) by (apply In_labels_keys; lia).
  assert (Hr : In k range9) by (rewrite range9_eq, <- labels_keys_eq; exact Hl).
  rewrite (getVS_get t r k Hl), (get_volumetric_symmetry_get _ _ k Hr).
  fold A B. split; [|split].
  - f_equal. destruct Hw as [Hw|[Hle Hlt]].
    + apply get_volumetric_symmetry_value_exact; [lia | exact Hw].
    + apply get_volumetric_symmetry_value_unsigned; [lia | exact Hle |].
      exact Hlt.
  - intros H. now rewrite vs_value_defined.
  - intros H. rewrite vs_value_undefined; [reflexivity | lia].
Qed.

Lemma get_volumetric_symmetry_agrees_without_wrap_witness :
  dict_get (get_volumetric_symmetry (mk_ndarray UnsignedInt [0; 3; 3; 1])
                                    (mk_ndarray UnsignedInt [3; 0; 1; 1])) 3
  = dict_get (getVS (volume (2, 2, 1) [0; 3; 3; 1])
                    (volume (2, 2, 1) [3; 0; 1; 1])) 3.
Proof.
  apply (get_volumetric_symmetry_agrees_without_wrap
           (volume (2, 2, 1) [0; 3; 3; 1]) (volume (2, 2, 1) [3; 0; 1; 1])
           UnsignedInt UnsignedInt 3).
  - lia.
  - right. split; [vm_compute; discriminate | reflexivity].
Defined.

(** C10 (the code at the failing input). Two arrays of unsigned integers
    hold label 1 at one voxel and at two voxels: [A = 1] and [B = 2].
    [getVS] stores [1 - |A - B| / (A + B) = 2/3]. In
    [get_volumetric_symmetry] the two sums are unsigned 64-bit integers,
    their difference [1 - 2] wraps around to [2^64 - 1] before [abs], and
    the value stored is [1 - (2^64 - 1) / 3], a negative number far from
    [2/3]; with the arrays swapped, or with signed arrays, it stores
    [2/3]. *)
Theorem get_volumetric_symmetry_wraps_on_unsigned_arrays :
  voxel_count 1 [0; 1] = 1 /\ voxel_count 1 [1; 1] = 2 /\
  dict_get (getVS (volume (2, 1, 1) [0; 1]) (volume (2, 1, 1) [1; 1])) 1
    = Some (PyNum (Q2Qc (2 # 3))) /\
  dict_get (get_volumetric_symmetry (mk_ndarray UnsignedInt [0; 1])
                                    (mk_ndarray UnsignedInt [1; 1])) 1
    = Some (PyNum (Q2Qc (1 - inject_Z (2 ^ 64 - 1) / 3))) /\
  (Q2Qc (1 - inject_Z (2 ^ 64 - 1) / 3) < 0)%Qc /\
  dict_get (get_volumetric_symmetry (mk_ndarray UnsignedInt [1; 1])
                                    (mk_ndarray UnsignedInt [0; 1])) 1
    = Some (PyNum (Q2Qc (2 # 3))) /\
  dict_get (get_volumetric_symmetry (mk_ndarray SignedInt [0; 1])
                                    (mk_ndarray SignedInt [1; 1])) 1
    = Some (PyNum (Q2Qc (2 # 3))).
Proof.
  split; [reflexivity|]. split; [reflexivity|].
  split; [|split; [|split; [|split]]].
  - rewrite getVS_get by (rewrite labels_keys_eq; simpl; tauto).
    rewrite vs_value_defined by reflexivity.
    first [ reflexivity
          | apply (f_equal Some), (f_equal PyNum), Qc_is_canon; reflexivity ].
  - rewrite get_volumetric_symmetry_get by (rewrite range9_eq; simpl; tauto).
    unfold get_volumetric_symmetry_value.
    rewrite vs_value_defined by reflexivity.
    first [ reflexivity
          | apply (f_equal Some), (f_equal PyNum), Qc_is_canon; reflexivity ].
  - reflexivity.
  - rewrite get_volumetric_symmetry_get by (rewrite range9_eq; simpl; tauto).
    unfold get_volumetric_symmetry_value.
    rewrite vs_value_defined by reflexivity.
    first [ reflexivity
          | apply (f_equal Some), (f_equal PyNum), Qc_is_canon; reflexivity ].
  - rewrite get_volumetric_symmetry_get by (rewrite range9_eq; simpl; tauto).
    unfold get_volumetric_symmetry_value.
    rewrite vs_value_defined by reflexivity.
    first [ reflexivity
          | apply (f_equal Some), (f_equal PyNum), Qc_is_canon; reflexivity ].
Qed.

(** ** Voxel geometry and the boundary image *)

Lemma offset_of_index_of_offset (img : Image) (i : Z) :
  offset_of_index img (index_of_offset img i) = i.
Proof.
  unfold offset_of_index, index_of_offset.
  destruct (img_size img) as [[nx ny] nz].
  rewrite (Z.add_comm ((i / nx) mod ny)), <- Z_div_mod_eq_full.
  rewrite Z.add_comm, <- Z_div_mod_eq_full. reflexivity.
Qed.

Lemma GetPixel_index_of_offset (img : Image) (i : nat) :
  GetPixel img (index_of_offset img (Z.of_nat i)) = nth i (pixels img) 0.
Proof.
  unfold GetPixel. now rewrite offset_of_index_of_offset, Nat2Z.id.
Qed.

Lemma nth_map_seq {A : Type} (g : nat -> A) (n i : nat) (d : A) :
  (i < n)%nat -> nth i (map g (seq 0 n)) d = g i.
Proof.
  intros H. rewrite (nth_indep _ d (g 0%nat)).
  - rewrite map_nth, seq_nth; [reflexivity | exact H].
  - now rewrite length_map, length_seq.
Qed.

Lemma filter_none {A : Type} (f : A -> bool) (l : list A) :
  (forall x, In x l -> f x = false) -> filter f l = [].
Proof.
  induction l as [|a l IH]; intros H; [reflexivity|].
  cbn [filter]. rewrite (H a (or_introl eq_refl)).
  apply IH. intros x Hx. apply H. now right.
Qed.

Lemma map_combine_seq {A : Type} (f : Z * Z -> A) (g : nat -> Z) (l : list Z) :
  forall s,
  map f (combine l (map g (seq s (length l))))
  = map (fun i => f (nth (i - s) l 0, g i)) (seq s (length l)).
Proof.
  induction l as [|a l IH]; intros s; [reflexivity|].
  cbn [length seq map combine]. rewrite Nat.sub_diag. cbn [nth]. f_equal.
  rewrite IH. apply map_ext_in. intros i Hi. apply in_seq in Hi.
  replace (i - s)%nat with (S (i - S s)) by lia. reflexivity.
Qed.

Lemma pixels_boundary_image (mask : Image) :
  pixels (boundary_image mask)
  = map (boundary_voxel mask) (seq 0 (length (pixels mask))).
Proof.
  unfold boundary_image, Subtract, erode. cbn [pixels set_pixels].
  rewrite map_combine_seq. apply map_ext. intros i.
  unfold boundary_voxel. cbn [fst snd]. now rewrite Nat.sub_0_r.
Qed.

Lemma pixels_erode (mask : Image) (i : nat) :
  (i < length (pixels mask))%nat ->
  nth i (pixels (erode mask (sitkBall (1, 1, 0)) 0 1 true)) 0
  = erode_voxel mask (sitkBall (1, 1, 0)) 0 1 true
      (index_of_offset mask (Z.of_nat i)).
Proof.
  intros H. unfold erode. cbn [pixels set_pixels].
  now apply (nth_map_seq
               (fun i => erode_voxel mask (sitkBall (1, 1, 0)) 0 1 true
                           (index_of_offset mask (Z.of_nat i)))).
Qed.

(** An eroded voxel is the original one, or 0 where the original is 1. *)
Lemma erode_voxel_cases (mask : Image) (i : nat) :
  let v := nth i (pixels mask) 0 in
  let e := erode_voxel mask (sitkBall (1, 1, 0)) 0 1 true
             (index_of_offset mask (Z.of_nat i)) in
  e = v \/ (v = 1 /\ e = 0).
Proof.
  cbv zeta. unfold erode_voxel. rewrite GetPixel_index_of_offset.
  destruct (nth i (pixels mask) 0 =? 1) eqn:E.
  - apply Z.eqb_eq in E.
    destruct (forallb _ _); [left; now rewrite E | right; now split].
  - now left.
Qed.

(** A voxel of the boundary image is non-zero exactly where the mask is 1
    and the eroded mask is 0. *)
Lemma boundary_voxel_nonzero (mask : Image) (i : nat) :
  negb (boundary_voxel mask i =? 0)
  = (nth i (pixels mask) 0 =? 1)
    && (erode_voxel mask (sitkBall (1, 1, 0)) 0 1 true
          (index_of_offset mask (Z.of_nat i)) =? 0).
Proof.
  unfold boundary_voxel.
  destruct (erode_voxel_cases mask i) as [He|[Hv He]].
  - rewrite He, Z.sub_diag. cbn [Z.modulo negb].
    change (0 mod 256 =? 0) with true. cbn [negb].
    destruct (nth i (pixels mask) 0 =? 1) eqn:E1; [|reflexivity].
    apply Z.eqb_eq in E1. rewrite E1. reflexivity.
  - rewrite He, Hv. reflexivity.
Qed.

Lemma boundary_image_length (mask : Image) :
  length (pixels (boundary_image mask)) = length (pixels mask).
Proof.
  now rewrite pixels_boundary_image, length_map, length_seq.
Qed.

(** The non-zero voxels of ORIGINAL - ERODED are the boundary of the
    specification (mask minus eroded mask as a set difference). *)
Lemma nonzero_xyz_boundary_image (mask : Image) :
  nonzero_xyz (boundary_image mask) = boundary_indices mask.
Proof.
  unfold nonzero_xyz, boundary_indices.
  rewrite boundary_image_length. f_equal.
  apply filter_ext_in. intros i Hi. apply in_seq in Hi.
  rewrite pixels_boundary_image, nth_map_seq by lia.
  rewrite boundary_voxel_nonzero, pixels_erode by lia. reflexivity.
Qed.

Lemma boundary_indices_in_mask (mask : Image) (p : index3) :
  In p (boundary_indices mask) -> In p (nonzero_xyz mask).
Proof.
  unfold boundary_indices, nonzero_xyz. intros H.
  apply in_map_iff in H. destruct H as [i [Hp Hi]].
  apply filter_In in Hi. destruct Hi as [Hi Hb].
  apply in_map_iff. exists i. split; [exact Hp|].
  apply filter_In. split; [exact Hi|].
  apply andb_prop in Hb. destruct Hb as [Hb _].
  apply Z.eqb_eq in Hb. now rewrite Hb.
Qed.

(** C7. The boundary produced by erosion-and-subtract is a subset of the
    mask: a voxel of the boundary is a voxel of the mask, and carries 1
    there; and the boundary of an all-zero mask is empty. *)
Theorem boundary_subset_of_mask (mask : Image) :
  incl (nonzero_xyz (boundary_image mask)) (nonzero_xyz mask) /\
  (forall i, nth i (pixels (boundary_image mask)) 0 <> 0 ->
             nth i (pixels mask) 0 = 1) /\
  (Forall (fun v => v = 0) (pixels mask) ->
   nonzero_xyz (boundary_image mask) = [] /\
   Forall (fun v => v = 0) (pixels (boundary_image mask))).
Proof.
  assert (Hvox : forall i, nth i (pixels (boundary_image mask)) 0 <> 0 ->
                           nth i (pixels mask) 0 = 1).
  { intros i Hnz.
    destruct (Nat.lt_ge_cases i (length (pixels mask))) as [Hlt|Hge].
    - rewrite pixels_boundary_image, nth_map_seq in Hnz by exact Hlt.
      apply Z.eqb_neq in Hnz.
      pose proof (boundary_voxel_nonzero mask i) as Hb.
      rewrite Hnz in Hb. cbn [negb] in Hb. symmetry in Hb.
      apply andb_prop in Hb. destruct Hb as [Hb _]. now apply Z.eqb_eq.
    - rewrite nth_overflow in Hnz; [contradiction|].
      now rewrite boundary_image_length. }
  split; [|split].
  - intros p Hp. rewrite nonzero_xyz_boundary_image in Hp.
    now apply boundary_indices_in_mask.
  - exact Hvox.
  - intros Hzero.
    assert (Hall : Forall (fun v => v = 0) (pixels (boundary_image mask))).
    { apply Forall_forall. intros v Hv.
      destruct (In_nth _ _ 0 Hv) as [i [Hi Hn]].
      destruct (Z.eq_dec v 0) as [E|E]; [exact E|].
      rewrite <- Hn in E. apply Hvox in E.
      rewrite boundary_image_length in Hi.
      rewrite Forall_forall in Hzero.
      specialize (Hzero _ (nth_In (pixels mask) 0 Hi)). lia. }
    split; [|exact Hall].
    unfold nonzero_xyz. rewrite filter_none; [reflexivity|].
    intros i Hi. apply in_seq in Hi. rewrite Forall_forall in Hall.
    rewrite (Hall _ (nth_In _ 0 (proj2 Hi))). reflexivity.
Qed.

Lemma boundary_subset_of_mask_witness :
  nonzero_xyz (boundary_image (volume (2, 2, 1) [0; 0; 0; 0])) = [] /\
  Forall (fun v => v = 0)
         (pixels (boundary_image (volume (2, 2, 1) [0; 0; 0; 0]))).
Proof.
  apply (boundary_subset_of_mask (volume (2, 2, 1) [0; 0; 0; 0])).
  repeat constructor.
Defined.

(** ** The Hausdorff loops *)

Lemma outcome_bind {A B : Type} (c : M A) (f : A -> M B) :
  outcome (bind c f)
  = match outcome c with
    | Ok a => outcome (f a)
    | Raise e => Raise e
    end.
Proof.
  unfold outcome, bind. destruct c as [l [a|e]]; cbn [snd].
  - now destruct (f a).
  - reflexivity.
Qed.

Lemma outcome_for_eachM {S : Type} (body : S -> Z -> M S) (ks : list Z) :
  forall s, outcome (for_eachM body ks s)
            = for_each (fun s k => outcome (body s k)) ks s.
Proof.
  induction ks as [|k ks IH]; intros s; [reflexivity|].
  cbn [for_eachM for_each]. rewrite outcome_bind.
  destruct (outcome (body s k)); [apply IH | reflexivity].
Qed.

(** The search helper on two lists of points. *)
Lemma getDistancesFromAtoB_outcome (sqrtQ : Q -> Q) (A B : list point) :
  outcome (getDistancesFromAtoB sqrtQ (PointList A) (PointList B))
  = directed_distances sqrtQ A B.
Proof.
  destruct A as [|p ps]; destruct B as [|q qs]; reflexivity.
Qed.

(** The sum of a mask is zero exactly when the mask is empty. *)
Lemma mask_sum_zero (img : Image) (k : Z) :
  (GetSum (BinaryThreshold img k k 1 0) =? 0)
  = mask_is_empty (label_mask img k).
Proof.
  unfold GetSum, mask_is_empty.
  rewrite <- BinaryThreshold_label_mask, pixels_BinaryThreshold.
  rewrite zsum_indicator.
  destruct (forallb (fun v => v =? 0) (indicator k (pixels img))) eqn:E.
  - apply Z.eqb_eq, voxel_count_zero, mask_all_zero.
    rewrite forallb_forall in E. apply Forall_forall.
    intros v Hv. now apply Z.eqb_eq, E.
  - apply Z.eqb_neq. intros H.
    apply voxel_count_zero, mask_all_zero in H.
    rewrite Forall_forall in H.
    assert (E' : forallb (fun v => v =? 0) (indicator k (pixels img)) = true).
    { apply forallb_forall. intros v Hv. now apply Z.eqb_eq, H. }
    congruence.
Qed.

Lemma mask_nonempty (img : Image) (k : Z) :
  In k (pixels img) -> mask_is_empty (label_mask img k) = false.
Proof.
  intros Hin. rewrite <- mask_sum_zero. apply Z.eqb_neq.
  unfold GetSum. rewrite pixels_BinaryThreshold, zsum_indicator.
  apply voxel_count_pos in Hin. lia.
Qed.

Lemma mask_empty (img : Image) (k : Z) :
  ~ In k (pixels img) -> mask_is_empty (label_mask img k) = true.
Proof.
  intros Hin. rewrite <- mask_sum_zero. apply Z.eqb_eq.
  unfold GetSum. rewrite pixels_BinaryThreshold, zsum_indicator.
  now apply voxel_count_zero.
Qed.

(** The body of [getHausdorff] stores the value of the label, and raises
    where the value raises. *)
Lemma getHausdorff_body_outcome (sqrtQ : Q -> Q) (t r : Image) (hd : dict)
  (k : Z) :
  outcome (getHausdorff_body sqrtQ t r hd k)
  = setter (fun k => hausdorff95_value sqrtQ k t r) hd k.
Proof.
  unfold getHausdorff_body, setter, hausdorff95_value.
  rewrite !mask_sum_zero.
  destruct (mask_is_empty (label_mask t k)
            || mask_is_empty (label_mask r k)); [reflexivity|].
  unfold BinaryErode. rewrite !outcome_bind. cbn [outcome emit ret snd].
  rewrite !outcome_bind. cbn [outcome emit ret snd].
  fold (boundary_image (BinaryThreshold t k k 1 0)).
  fold (boundary_image (BinaryThreshold r k k 1 0)).
  rewrite !nonzero_xyz_boundary_image, !BinaryThreshold_label_mask.
  rewrite !outcome_bind, !getDistancesFromAtoB_outcome.
  destruct (directed_distances sqrtQ _ _) as [d1|e1]; [|reflexivity].
  rewrite !outcome_bind, !getDistancesFromAtoB_outcome.
  destruct (directed_distances sqrtQ _ _) as [d2|e2]; reflexivity.
Qed.

Lemma getHausdorff_outcome (sqrtQ : Q -> Q) (t r : Image) :
  outcome (getHausdorff sqrtQ t r)
  = for_each (setter (fun k => hausdorff95_value sqrtQ k t r)) labels_keys [].
Proof.
  unfold getHausdorff. rewrite outcome_for_eachM.
  apply for_each_ext. intros s k. apply getHausdorff_body_outcome.
Qed.

(** An empty mask: [None] is stored, and neither the erosion nor the
    search is called. *)
Lemma getHausdorff_body_guard (sqrtQ : Q -> Q) (t r : Image) (hd : dict)
  (k : Z) :
  ~ In k (pixels t) \/ ~ In k (pixels r) ->
  getHausdorff_body sqrtQ t r hd k = ([], Ok (dict_set hd k PyNone)).
Proof.
  intros H. unfold getHausdorff_body. rewrite !mask_sum_zero.
  destruct H as [H|H]; rewrite (mask_empty _ _ H), ?orb_true_r; reflexivity.
Qed.

(** For a label whose two binary masks are both non-empty, the body of
    [getHausdorff] goes through these steps: the boundary of each mask by
    erosion with a structuring element that is flat along the slice axis
    and subtraction, the physical coordinates of the boundary voxels, the
    directed nearest-neighbour distances in both directions, the 95th
    percentile of each, and their maximum. It raises when a boundary is
    empty. *)
Lemma getHausdorff_body_steps (sqrtQ : Q -> Q) (t r : Image) (hd : dict)
  (k : Z) :
  In k (pixels t) -> In k (pixels r) ->
  let testPoints :=
    map (TransformIndexToPhysicalPoint t)
        (nonzero_xyz (boundary_image (BinaryThreshold t k k 1 0))) in
  let resultPoints :=
    map (TransformIndexToPhysicalPoint r)
        (nonzero_xyz (boundary_image (BinaryThreshold r k k 1 0))) in
  Forall (fun d : index3 => snd d = 0) (sitkBall (1, 1, 0)) /\
  outcome (getHausdorff_body sqrtQ t r hd k)
  = match testPoints, resultPoints with
    | p :: ps, q :: qs =>
        Ok (dict_set hd k
              (PyNum (Q2Qc (Qmax
                 (np_percentile (map (nearest_distance sqrtQ p ps)
                                     resultPoints) 95)
                 (np_percentile (map (nearest_distance sqrtQ q qs)
                                     testPoints) 95)))))
    | _, _ => Raise ValueError
    end.
Proof.
  intros Ht Hr testPoints resultPoints.
  split; [vm_compute; repeat constructor|].
  rewrite getHausdorff_body_outcome. unfold setter, hausdorff95_value.
  rewrite (mask_nonempty t k Ht), (mask_nonempty r k Hr). cbn [orb].
  rewrite <- !BinaryThreshold_label_mask, <- !nonzero_xyz_boundary_image.
  fold testPoints resultPoints.
  destruct testPoints as [|p ps]; destruct resultPoints as [|q qs];
    reflexivity.
Qed.

(** C4 (the code at the failing input). Label 1 fills the slice of the
    test image and covers a square of the result image, so both of its
    masks are non-empty. The erosion counts the outside of the image as
    foreground and leaves the filled mask unchanged, its boundary is
    empty, and [getHausdorff] ends in the exception of the search tree
    instead of returning the maximum of the two percentiles. *)
Theorem getHausdorff_no_maximum_for_filled_slice (sqrtQ : Q -> Q) :
  GetSum (BinaryThreshold filled_slice 1 1 1 0) = 16 /\
  GetSum (BinaryThreshold square_volume 1 1 1 0) = 4 /\
  nonzero_xyz (boundary_image (BinaryThreshold filled_slice 1 1 1 0)) = [] /\
  nonzero_xyz (boundary_image (BinaryThreshold square_volume 1 1 1 0))
  = [(1, 1, 0); (2, 1, 0); (1, 2, 0); (2, 2, 0)] /\
  getHausdorff_body sqrtQ filled_slice square_volume [] 1
  = ([EvBinaryErode (BinaryThreshold filled_slice 1 1 1 0);
      EvBinaryErode (BinaryThreshold square_volume 1 1 1 0);
      EvKDTree (PointList [])], Raise ValueError) /\
  outcome (getHausdorff sqrtQ filled_slice square_volume) = Raise ValueError.
Proof.
  repeat split; reflexivity.
Qed.

(** ** The array-based Hausdorff loop *)

Lemma get_hausdorff_distance_run (sqrtQ : Q -> Q) (lab pred : list Z) :
  N.of_nat (length lab) = (220 * 220 * 48)%N ->
  N.of_nat (length pred) = (220 * 220 * 48)%N ->
  get_hausdorff_distance sqrtQ lab pred
  = ([EvKDTree (Array3D (220, 220, 48)%N (np_where_eq lab 0))],
     Raise ValueError).
Proof.
  intros Hl Hp. unfold get_hausdorff_distance. rewrite range9_eq.
  cbn [for_eachM]. unfold get_hausdorff_distance_body, np_reshape.
  rewrite !np_where_eq_length, Hl, Hp, N.eqb_refl. reflexivity.
Qed.

(** [get_hausdorff_distance] never returns a mapping: the reshape raises
    on any other size, and the search tree rejects the reshaped volume. *)
Lemma get_hausdorff_distance_never_returns (sqrtQ : Q -> Q)
  (lab pred : list Z) :
  outcome (get_hausdorff_distance sqrtQ lab pred) = Raise ValueError.
Proof.
  unfold get_hausdorff_distance. rewrite range9_eq.
  cbn [for_eachM]. rewrite outcome_bind.
  unfold get_hausdorff_distance_body, np_reshape.
  destruct (N.of_nat (length (np_where_eq lab 0)) =? 220 * 220 * 48)%N;
    [|reflexivity].
  destruct (N.of_nat (length (np_where_eq pred 0)) =? 220 * 220 * 48)%N;
    reflexivity.
Qed.

Lemma full_volume_length (v : Z) :
  N.of_nat (length (full_volume v)) = (220 * 220 * 48)%N.
Proof.
  unfold full_volume. now rewrite repeat_length, N2Nat.id.
Qed.

Lemma full_volume_absent (v k : Z) : v <> k -> ~ In k (full_volume v).
Proof.
  intros Hv Hin. unfold full_volume in Hin.
  apply repeat_spec in Hin. congruence.
Qed.

#[local] Opaque full_volume.

(** C2 (the code at the failing input). Every voxel of both arrays carries
    label 1, so both masks of label 0 are entirely empty;
    [get_hausdorff_distance] tests nothing, hands the label-0 selection to
    the search tree, and ends in an exception instead of storing the
    undefined marker. *)
Theorem get_hausdorff_distance_has_no_guard :
  Forall (fun v => v = 0) (indicator 0 (full_volume 1)) /\
  events (get_hausdorff_distance sqrtQ_floor (full_volume 1) (full_volume 1))
  = [EvKDTree (Array3D (220, 220, 48)%N (np_where_eq (full_volume 1) 0))] /\
  outcome (get_hausdorff_distance sqrtQ_floor (full_volume 1) (full_volume 1))
  = Raise ValueError.
Proof.
  split.
  - apply mask_all_zero, full_volume_absent. discriminate.
  - rewrite (get_hausdorff_distance_run sqrtQ_floor _ _
               (full_volume_length 1) (full_volume_length 1)).
    split; reflexivity.
Qed.

(** C6 (the code at the failing inputs). The search tree is reached with
    an empty point set in [getHausdorff]: a mask that fills its slice is
    non-empty, passes the test on the sums, and has an empty boundary
    because the erosion counts the outside of the image as foreground. And
    [get_hausdorff_distance] calls the search without any test, here on
    the selection of a label whose masks are empty. *)
Theorem search_tree_reached_with_empty_input :
  (In 1 (pixels single_voxel) /\
   nonzero_xyz (boundary_image (BinaryThreshold single_voxel 1 1 1 0)) = [] /\
   getHausdorff sqrtQ_floor single_voxel single_voxel
   = ([EvBinaryErode single_voxel; EvBinaryErode single_voxel;
       EvKDTree (PointList [])], Raise ValueError)) /\
  (~ In 0 (full_volume 1) /\
   In (EvKDTree (Array3D (220, 220, 48)%N (np_where_eq (full_volume 1) 0)))
      (events (get_hausdorff_distance sqrtQ_floor (full_volume 1)
                                      (full_volume 1)))).
Proof.
  split.
  - split; [simpl; tauto|]. split; reflexivity.
  - split; [apply full_volume_absent; discriminate|].
    rewrite (get_hausdorff_distance_run sqrtQ_floor _ _
               (full_volume_length 1) (full_volume_length 1)).
    apply in_eq.
Qed.

(** ** The result mappings *)

(** X21. For same-shaped volumes, [getDSC], [getVS], [get_dice_score] and
    [get_volumetric_symmetry] each return a mapping of exactly 9 entries,
    keyed by the labels 0 to 8 in that order. A label that occurs in
    neither volume does not abort them: it yields the undefined marker in
    [getVS] and [get_volumetric_symmetry], and not-a-number in [getDSC] and
    [get_dice_score]. In [getHausdorff] a label with an empty mask stores
    the undefined marker and the loop goes on. *)
Theorem dice_and_vs_mappings_have_nine_entries (t r : Image)
  (dt dr : dtype) (Hshape : length (pixels t) = length (pixels r)) :
  let lab2d := mk_ndarray dt (pixels t) in
  let pred2d := mk_ndarray dr (pixels r) in
  (exists d, getDSC t r = Ok d /\
             dict_keys d = [0; 1; 2; 3; 4; 5; 6; 7; 8] /\ length d = 9%nat /\
             forall k, In k labels_keys ->
                       ~ In k (pixels t) -> ~ In k (pixels r) ->
                       dict_get d k = Some PyNaN) /\
  (dict_keys (getVS t r) = [0; 1; 2; 3; 4; 5; 6; 7; 8] /\
   length (getVS t r) = 9%nat /\
   forall k, In k labels_keys -> ~ In k (pixels t) -> ~ In k (pixels r) ->
             dict_get (getVS t r) k = Some PyNone) /\
  (exists d, get_dice_score (pixels t) (pixels r) = Ok d /\
             dict_keys d = [0; 1; 2; 3; 4; 5; 6; 7; 8] /\ length d = 9%nat /\
             forall k, In k range9 ->
                       ~ In k (pixels t) -> ~ In k (pixels r) ->
                       dict_get d k = Some PyNaN) /\
  (dict_keys (get_volumetric_symmetry lab2d pred2d)
   = [0; 1; 2; 3; 4; 5; 6; 7; 8] /\
   length (get_volumetric_symmetry lab2d pred2d) = 9%nat /\
   forall k, In k range9 -> ~ In k (pixels t) -> ~ In k (pixels r) ->
             dict_get (get_volumetric_symmetry lab2d pred2d) k
             = Some PyNone) /\
  (forall sqrtQ hd k,
     ~ In k (pixels t) \/ ~ In k (pixels r) ->
     getHausdorff_body sqrtQ t r hd k = ([], Ok (dict_set hd k PyNone))).
Proof.
  intros lab2d pred2d.
  assert (Hlen : forall d : dict,
            dict_keys d = [0; 1; 2; 3; 4; 5; 6; 7; 8] -> length d = 9%nat).
  { intros d Hd. unfold dict_keys in Hd.
    rewrite <- (length_map fst d), Hd. reflexivity. }
  split; [|split; [|split; [|split]]].
  - destruct (getDSC_mapping t r Hshape) as [d [Hd [Hkeys Hget]]].
    exists d. repeat split; auto.
    intros k Hk Ht Hr. rewrite (Hget k Hk).
    now rewrite (getDSC_value_absent t r k Hshape Ht Hr).
  - repeat split; auto using getVS_keys.
    intros k Hk Ht Hr. rewrite (getVS_get t r k Hk).
    apply voxel_count_zero in Ht, Hr. rewrite Ht, Hr. reflexivity.
  - destruct (get_dice_score_mapping _ _ Hshape) as [d [Hd [Hkeys Hget]]].
    exists d. repeat split; auto.
    intros k Hk Ht Hr. rewrite (Hget k Hk).
    rewrite (get_dice_score_value_degenerate _ _ k Hshape); [reflexivity|].
    right. now split.
  - repeat split; auto using get_volumetric_symmetry_keys.
    intros k Hk Ht Hr. rewrite (get_volumetric_symmetry_get _ _ k Hk).
    rewrite get_volumetric_symmetry_value_degenerate; [reflexivity|].
    right. now split.
  - intros sqrtQ hd k H. now apply getHausdorff_body_guard.
Qed.

Lemma dice_and_vs_mappings_have_nine_entries_witness :
  exists d, getDSC square_volume block_volume = Ok d /\
            dict_keys d = [0; 1; 2; 3; 4; 5; 6; 7; 8] /\ length d = 9%nat /\
            forall k, In k labels_keys ->
                      ~ In k (pixels square_volume) ->
                      ~ In k (pixels block_volume) ->
                      dict_get d k = Some PyNaN.
Proof.
  apply (dice_and_vs_mappings_have_nine_entries square_volume block_volume
           UnsignedInt UnsignedInt).
  reflexivity.
Defined.

(** C3 (the code at the failing inputs). Three same-shaped inputs on which
    a metric function does not return nine entries with an undefined
    marker at the degenerate label. Label 3 fills both 2x2 slices:
    [getHausdorff] stores the undefined marker for the labels 0 to 2 and
    then ends in the exception of the search tree, returning no mapping.
    [get_hausdorff_distance] ends in an exception on two arrays of its own
    220 x 220 x 48 voxels, and on every other input. And label 5 occurs in
    neither volume: [getDSC] and [get_dice_score] go on to the other
    labels, but store not-a-number under label 5, not the undefined
    marker. *)
Theorem metric_functions_not_all_nine_entries (sqrtQ : Q -> Q) :
  let filled := volume (2, 2, 1) [3; 3; 3; 3] in
  getHausdorff sqrtQ filled filled
  = ([EvBinaryErode (BinaryThreshold filled 3 3 1 0);
      EvBinaryErode (BinaryThreshold filled 3 3 1 0);
      EvKDTree (PointList [])], Raise ValueError) /\
  outcome (get_hausdorff_distance sqrtQ (full_volume 1) (full_volume 1))
  = Raise ValueError /\
  (forall lab2d pred2d,
     outcome (get_hausdorff_distance sqrtQ lab2d pred2d) = Raise ValueError) /\
  (exists d, getDSC filled filled = Ok d /\
             dict_keys d = [0; 1; 2; 3; 4; 5; 6; 7; 8] /\
             dict_get d 5 = Some PyNaN /\ dict_get d 5 <> Some PyNone) /\
  (exists d, get_dice_score [3; 3; 3; 3] [3; 3; 3; 3] = Ok d /\
             dict_keys d = [0; 1; 2; 3; 4; 5; 6; 7; 8] /\
             dict_get d 5 = Some PyNaN /\ dict_get d 5 <> Some PyNone).
Proof.
  intros filled.
  assert (Hin : forall k, k <> 3 -> ~ In k [3; 3; 3; 3])
    by (intros k Hk; simpl; intuition congruence).
  split; [reflexivity|].
  split; [apply get_hausdorff_distance_never_returns|].
  split; [apply get_hausdorff_distance_never_returns|]. split.
  - destruct (getDSC_mapping filled filled eq_refl) as [d [Hd [Hkeys Hget]]].
    exists d. split; [exact Hd|]. split; [exact Hkeys|].
    assert (H5 : dict_get d 5 = Some PyNaN).
    { rewrite (Hget 5) by (rewrite labels_keys_eq; simpl; tauto).
      rewrite (getDSC_value_absent filled filled 5 eq_refl);
        [reflexivity | apply Hin; discriminate ..]. }
    split; [exact H5|]. rewrite H5. discriminate.
  - destruct (get_dice_score_mapping [3; 3; 3; 3] [3; 3; 3; 3] eq_refl)
      as [d [Hd [Hkeys Hget]]].
    exists d. split; [exact Hd|]. split; [exact Hkeys|].
    assert (H5 : dict_get d 5 = Some PyNaN).
    { rewrite (Hget 5) by (rewrite range9_eq; simpl; tauto).
      rewrite (get_dice_score_value_degenerate [3; 3; 3; 3] [3; 3; 3; 3] 5
                 eq_refl); [reflexivity|].
      right. split; apply Hin; discriminate. }
    split; [exact H5|]. rewrite H5. discriminate.
Qed.

(** ** The model on small volumes *)

(** Evaluate both sides; canonical rationals are equal when their
    fractions are. *)
Ltac qc_eval :=
  vm_compute;
  first [ reflexivity | do 2 f_equal; apply Qc_is_canon; reflexivity ].

Example sitkBall_in_slice :
  sitkBall (1, 1, 0)
  = [(-1, -1, 0); (0, -1, 0); (1, -1, 0);
     (-1, 0, 0); (0, 0, 0); (1, 0, 0);
     (-1, 1, 0); (0, 1, 0); (1, 1, 0)].
Proof. reflexivity. Qed.

Example np_percentile_of_five :
  (np_percentile [1; 2; 3; 4; 5] 95 == 4.8)%Q.
Proof. reflexivity. Qed.

Example erode_keeps_a_full_slice :
  pixels (erode (volume (3, 3, 1) [1; 1; 1; 1; 1; 1; 1; 1; 1])
                (sitkBall (1, 1, 0)) 0 1 true)
  = [1; 1; 1; 1; 1; 1; 1; 1; 1].
Proof. reflexivity. Qed.

Example boundary_of_a_square :
  pixels (boundary_image
            (volume (4, 4, 1)
               [1; 1; 1; 1;  1; 1; 1; 1;  1; 1; 1; 1;  0; 0; 0; 0]))
  = [0; 0; 0; 0;  0; 0; 0; 0;  1; 1; 1; 1;  0; 0; 0; 0].
Proof. reflexivity. Qed.

(** Two identical 2x2x2 volumes with label 1 at (0,0,0) and (1,1,1):
    Dice 1, Hausdorff-95 0 and volume similarity 1 at label 1. *)
Example identical_volumes_dice :
  getDSC_value two_corners two_corners 1 = Ok (PyNum 1%Qc).
Proof. qc_eval. Qed.

Example identical_volumes_volume_similarity :
  dict_get (getVS two_corners two_corners) 1 = Some (PyNum 1%Qc).
Proof.
  rewrite getVS_get by (rewrite labels_keys_eq; simpl; tauto).
  rewrite vs_value_defined by reflexivity.
  do 2 f_equal. apply Qc_is_canon. reflexivity.
Qed.

Example identical_volumes_hausdorff :
  exists d, outcome (getHausdorff sqrtQ_floor two_corners two_corners) = Ok d
            /\ dict_get d 1 = Some (PyNum 0%Qc).
Proof.
  eexists. split; [vm_compute; reflexivity|]. qc_eval.
Qed.

(** Label 1 at one voxel of the ground truth and nowhere in the
    prediction: Dice 0, volume similarity 0 and Hausdorff-95 undefined. *)
Example one_sided_label :
  let truth := volume (2, 1, 1) [1; 0] in
  let prediction := volume (2, 1, 1) [0; 0] in
  getDSC_value truth prediction 1 = Ok (PyNum 0%Qc) /\
  dict_get (getVS truth prediction) 1 = Some (PyNum 0%Qc) /\
  getHausdorff_body sqrtQ_floor truth prediction [] 1 = ([], Ok [(1, PyNone)]).
Proof.
  cbv zeta. split; [|split].
  - qc_eval.
  - rewrite getVS_get by (rewrite labels_keys_eq; simpl; tauto). qc_eval.
  - reflexivity.
Qed.

(** Label 3 in neither volume: Dice is not-a-number, volume similarity
    and Hausdorff-95 are undefined. *)
Example absent_label :
  getDSC_value two_corners two_corners 3 = Ok PyNaN /\
  get_dice_score_value (pixels two_corners) (pixels two_corners) 3
  = Ok PyNaN /\
  dict_get (getVS two_corners two_corners) 3 = Some PyNone /\
  getHausdorff_body sqrtQ_floor two_corners two_corners [] 3
  = ([], Ok [(3, PyNone)]).
Proof.
  repeat split; reflexivity.
Qed.

(** * Further properties of the metric functions *)

(** ** Symmetry of Dice *)

Lemma combine_swap (u v : list Z) :
  combine v u = map (fun p => (snd p, fst p)) (combine u v).
Proof.
  revert v. induction u as [|a u IH]; intros [|b v]; try reflexivity.
  cbn [combine map fst snd]. now rewrite IH.
Qed.

Lemma broadcast_swap (u v : list Z) :
  broadcast v u
  = match broadcast u v with
    | Ok uv => Ok (map (fun p => (snd p, fst p)) uv)
    | Raise e => Raise e
    end.
Proof.
  unfold broadcast. rewrite (Nat.eqb_sym (length v) (length u)).
  destruct (Nat.eqb (length u) (length v)) eqn:E.
  - now rewrite combine_swap.
  - apply Nat.eqb_neq in E.
    destruct (Nat.eqb (length v) 1) eqn:Ev;
      destruct (Nat.eqb (length u) 1) eqn:Eu;
      try reflexivity.
    + apply Nat.eqb_eq in Ev, Eu. lia.
    + now rewrite map_map.
    + now rewrite map_map.
Qed.

Lemma dice_comm (u v : list Z) : dice u v = dice v u.
Proof.
  unfold dice. rewrite (broadcast_swap u v).
  destruct (broadcast u v) as [uv|e]; [|reflexivity].
  rewrite !map_map. cbn [fst snd].
  rewrite (map_ext (fun p : Z * Z => snd p * fst p)
                   (fun p => fst p * snd p))
    by (intros p; apply Z.mul_comm).
  rewrite (map_ext (fun p : Z * Z => (1 - snd p) * fst p)
                   (fun p => fst p * (1 - snd p)))
    by (intros p; apply Z.mul_comm).
  rewrite (map_ext (fun p : Z * Z => snd p * (1 - fst p))
                   (fun p => (1 - fst p) * snd p))
    by (intros p; apply Z.mul_comm).
  set (ntt := zsum (map (fun p => fst p * snd p) uv)).
  set (nft := zsum (map (fun p => (1 - fst p) * snd p) uv)).
  set (ntf := zsum (map (fun p => fst p * (1 - snd p)) uv)).
  replace (2 * ntt + nft + ntf) with (2 * ntt + ntf + nft) by ring.
  replace (nft + ntf) with (ntf + nft) by ring.
  reflexivity.
Qed.

(** X1. Dice is symmetric: swapping the test and the result image, or the
    two label arrays, gives the same mapping (or the same exception). *)
Theorem dice_functions_symmetric (t r : Image) (lab2d pred2d : list Z) :
  getDSC t r = getDSC r t /\
  get_dice_score lab2d pred2d = get_dice_score pred2d lab2d.
Proof.
  split.
  - unfold getDSC. apply for_each_ext. intros s k.
    unfold getDSC_body. now rewrite dice_comm.
  - unfold get_dice_score. apply for_each_ext. intros s k.
    unfold get_dice_score_body. now rewrite dice_comm.
Qed.

(** ** The value of Dice *)

Lemma combine_map_both (f : Z -> Z) (a b : list Z) :
  combine (map f a) (map f b)
  = map (fun p => (f (fst p), f (snd p))) (combine a b).
Proof.
  revert b. induction a as [|x a IH]; intros [|y b]; try reflexivity.
  cbn [combine map fst snd]. now rewrite IH.
Qed.

Lemma overlap_count_cons (k x y : Z) (a b : list Z) :
  overlap_count k (x :: a) (y :: b)
  = (if (x =? k) && (y =? k) then 1 else 0) + overlap_count k a b.
Proof.
  unfold overlap_count. cbn [combine filter fst snd].
  destruct ((x =? k) && (y =? k)); cbn [length]; lia.
Qed.

Lemma voxel_count_cons (k x : Z) (a : list Z) :
  voxel_count k (x :: a) = (if x =? k then 1 else 0) + voxel_count k a.
Proof.
  unfold voxel_count. cbn [count_occ].
  destruct (Z.eq_dec x k) as [E|E].
  - subst x. rewrite Z.eqb_refl. lia.
  - apply Z.eqb_neq in E. rewrite E. lia.
Qed.

(** [ntt] of two label masks counts the voxels both masks hold. *)
Lemma ntt_overlap (k : Z) (a b : list Z) :
  zsum (map (fun p => fst p * snd p)
            (combine (indicator k a) (indicator k b)))
  = overlap_count k a b.
Proof.
  unfold indicator. revert b.
  induction a as [|x a IH]; intros [|y b]; try reflexivity.
  cbn [map combine fst snd]. rewrite zsum_cons, IH, overlap_count_cons.
  destruct (x =? k); destruct (y =? k); reflexivity.
Qed.

Lemma overlap_count_bounds (k : Z) (a b : list Z) :
  0 <= overlap_count k a b /\
  overlap_count k a b <= voxel_count k a /\
  overlap_count k a b <= voxel_count k b.
Proof.
  revert b. induction a as [|x a IH]; intros [|y b].
  - unfold overlap_count, voxel_count. cbn. lia.
  - unfold overlap_count. cbn. pose proof (voxel_count_nonneg k (y :: b)). lia.
  - unfold overlap_count. cbn. pose proof (voxel_count_nonneg k (x :: a)). lia.
  - rewrite overlap_count_cons, !voxel_count_cons.
    specialize (IH b).
    destruct (x =? k); destruct (y =? k); cbn [andb]; lia.
Qed.

(** The overlap fills both masks exactly when the masks are equal. *)
Lemma overlap_count_full (k : Z) (a : list Z) :
  forall b, length a = length b ->
  (overlap_count k a b = voxel_count k a /\
   overlap_count k a b = voxel_count k b)
  <-> indicator k a = indicator k b.
Proof.
  induction a as [|x a IH]; intros [|y b] Hlen; try discriminate.
  - split; [reflexivity | intros _; split; reflexivity].
  - injection Hlen as Hlen. specialize (IH b Hlen).
    rewrite overlap_count_cons, !voxel_count_cons.
    pose proof (overlap_count_bounds k a b) as Hb.
    unfold indicator in *. cbn [map].
    destruct (x =? k); destruct (y =? k); cbn [andb].
    + split.
      * intros [H1 H2]. f_equal. apply IH. lia.
      * intros H. injection H as H. apply IH in H. lia.
    + split; [lia | discriminate].
    + split; [lia | discriminate].
    + split.
      * intros [H1 H2]. f_equal. apply IH. lia.
      * intros H. injection H as H. apply IH in H. lia.
Qed.

Lemma Qc_mult_Q2Qc (x y : Q) : (Q2Qc x * Q2Qc y)%Qc = Q2Qc (x * y).
Proof.
  apply Qc_is_canon. unfold Qcmult. cbn [this Q2Qc].
  rewrite !Qred_correct. reflexivity.
Qed.

(** A quotient [n / d] with [0 <= n <= d] and [0 < d]. *)
Lemma Q2Qc_fraction (n d : Z) :
  0 <= n <= d -> 0 < d ->
  let q := Q2Qc (inject_Z n / inject_Z d) in
  (0 <= q)%Qc /\ (q <= 1)%Qc /\ (q = 0%Qc <-> n = 0) /\ (q = 1%Qc <-> n = d).
Proof.
  intros Hn Hd q. subst q.
  destruct d as [|d|d]; try lia.
  assert (Hq : inject_Z n / inject_Z (Z.pos d) == n # d)
    by (now rewrite <- Qmake_Qdiv).
  repeat split.
  - unfold Qcle. cbn [this Q2Qc]. rewrite !Qred_correct, Hq.
    unfold Qle. cbn [Qnum Qden]. lia.
  - unfold Qcle. cbn [this Q2Qc]. rewrite !Qred_correct, Hq.
    unfold Qle. cbn [Qnum Qden]. lia.
  - intros H. apply Q2Qc_eq_iff in H. rewrite Hq in H.
    unfold Qeq in H. cbn [Qnum Qden] in H. lia.
  - intros H. apply Q2Qc_eq_iff. rewrite Hq.
    unfold Qeq. cbn [Qnum Qden]. lia.
  - intros H. apply Q2Qc_eq_iff in H. rewrite Hq in H.
    unfold Qeq in H. cbn [Qnum Qden] in H. lia.
  - intros H. apply Q2Qc_eq_iff. rewrite Hq.
    unfold Qeq. cbn [Qnum Qden]. lia.
Qed.

Lemma inject_Z_nonzero (d : Z) : d <> 0 -> ~ (inject_Z d == 0).
Proof.
  intros Hd H. unfold Qeq in H. cbn [Qnum Qden inject_Z] in H. lia.
Qed.

(** The value [getDSC] stores: twice the overlap over the two volumes. *)
Lemma getDSC_value_formula (t r : Image) (k : Z) :
  length (pixels t) = length (pixels r) ->
  0 < voxel_count k (pixels t) + voxel_count k (pixels r) ->
  getDSC_value t r k
  = Ok (PyNum (Q2Qc (inject_Z (2 * overlap_count k (pixels t) (pixels r))
                     / inject_Z (voxel_count k (pixels t)
                                 + voxel_count k (pixels r))))).
Proof.
  intros Hlen Hpos. unfold getDSC_value, GetArrayFromImage_flatten.
  rewrite !pixels_BinaryThreshold.
  rewrite dice_same_length by (now rewrite !indicator_length).
  cbv zeta. rewrite !zsum_indicator.
  pose proof (dice_denominator
                (combine (indicator k (pixels t)) (indicator k (pixels r))))
    as Hden.
  rewrite zsum_fst_combine, zsum_snd_combine, ntt_overlap, !zsum_indicator
    in Hden by (now rewrite !indicator_length).
  set (A := voxel_count k (pixels t)) in *.
  set (B := voxel_count k (pixels r)) in *.
  set (I := overlap_count k (pixels t) (pixels r)) in *.
  set (ntf := zsum (map (fun p => fst p * (1 - snd p)) _)) in *.
  set (nft := zsum (map (fun p => (1 - fst p) * snd p) _)) in *.
  destruct (A + B =? 0) eqn:E; [apply Z.eqb_eq in E; lia|].
  cbn [one_minus]. apply (f_equal Ok), (f_equal PyNum).
  rewrite Qc_one_minus. apply Q2Qc_eq_iff.
  replace (ntf + nft) with (A + B - 2 * I) by lia.
  unfold Z.sub. rewrite inject_Z_plus, inject_Z_opp.
  field. apply inject_Z_nonzero. lia.
Qed.

(** X2. For same-shaped volumes and a label that occurs in at least one
    of them, [getDSC] stores the Dice coefficient [2 I / (A + B)], where
    [A] and [B] are the voxel counts of the two masks and [I] the number
    of voxels both masks hold: a value of [[0, 1]] that is 0 exactly when
    the masks do not overlap and 1 exactly when they are equal. *)
Theorem getDSC_is_the_dice_coefficient (t r : Image) (k : Z)
  (Hk : In k labels_keys)
  (Hshape : length (pixels t) = length (pixels r))
  (Hpos : 0 < voxel_count k (pixels t) + voxel_count k (pixels r)) :
  exists d q,
    getDSC t r = Ok d /\ dict_get d k = Some (PyNum q) /\
    q = Q2Qc (inject_Z (2 * overlap_count k (pixels t) (pixels r))
              / inject_Z (voxel_count k (pixels t)
                          + voxel_count k (pixels r))) /\
    (0 <= q)%Qc /\ (q <= 1)%Qc /\
    (q = 0%Qc <-> overlap_count k (pixels t) (pixels r) = 0) /\
    (q = 1%Qc <-> indicator k (pixels t) = indicator k (pixels r)).
Proof.
  destruct (getDSC_mapping t r Hshape) as [d [Hd [_ Hget]]].
  exists d. eexists. split; [exact Hd|]. split.
  { rewrite (Hget k Hk), (getDSC_value_formula t r k Hshape Hpos).
    reflexivity. }
  split; [reflexivity|].
  pose proof (overlap_count_bounds k (pixels t) (pixels r)) as Hb.
  pose proof (overlap_count_full k (pixels t) (pixels r) Hshape) as Hfull.
  destruct (Q2Qc_fraction (2 * overlap_count k (pixels t) (pixels r))
              (voxel_count k (pixels t) + voxel_count k (pixels r)))
    as (H0 & H1 & Hz & Ho); [lia | exact Hpos |].
  split; [exact H0|]. split; [exact H1|]. split.
  - rewrite Hz. lia.
  - rewrite Ho, <- Hfull. lia.
Qed.

Lemma getDSC_is_the_dice_coefficient_witness :
  exists d q,
    getDSC square_volume block_volume = Ok d /\
    dict_get d 1 = Some (PyNum q) /\
    q = Q2Qc (inject_Z (2 * overlap_count 1 (pixels square_volume)
                                          (pixels block_volume))
              / inject_Z (voxel_count 1 (pixels square_volume)
                          + voxel_count 1 (pixels block_volume))) /\
    (0 <= q)%Qc /\ (q <= 1)%Qc.
Proof.
  destruct (getDSC_is_the_dice_coefficient square_volume block_volume 1)
    as (d & q & H1 & H2 & H3 & H4 & H5 & _).
  - rewrite labels_keys_eq. simpl. tauto.
  - reflexivity.
  - reflexivity.
  - exists d, q. auto.
Defined.

(** ** Dice on the selections of [np.where] *)

Lemma np_where_eq_scaled (a : list Z) (k : Z) :
  np_where_eq a k = map (Z.mul k) (indicator k a).
Proof.
  unfold np_where_eq, indicator. rewrite map_map. apply map_ext.
  intros v. destruct (v =? k) eqn:E.
  - apply Z.eqb_eq in E. lia.
  - lia.
Qed.

Lemma ntt_scaled (k : Z) (uv : list (Z * Z)) :
  zsum (map (fun p => fst p * snd p)
            (map (fun p => (k * fst p, k * snd p)) uv))
  = k * k * zsum (map (fun p => fst p * snd p) uv).
Proof.
  induction uv as [|[x y] uv IH]; [cbn; lia|].
  cbn [map fst snd]. rewrite !zsum_cons, IH. ring.
Qed.

Lemma get_dice_score_value_formula (lab pred : list Z) (k : Z) :
  0 < k -> length lab = length pred ->
  0 < voxel_count k lab + voxel_count k pred ->
  get_dice_score_value lab pred k
  = Ok (PyNum (Q2Qc (inject_Z k
                     * (inject_Z (2 * overlap_count k lab pred)
                        / inject_Z (voxel_count k lab
                                    + voxel_count k pred))))).
Proof.
  intros Hk Hlen Hpos. unfold get_dice_score_value.
  rewrite dice_same_length by (now rewrite !np_where_eq_length).
  cbv zeta. rewrite !zsum_np_where_eq.
  pose proof (dice_denominator
                (combine (np_where_eq lab k) (np_where_eq pred k))) as Hden.
  rewrite zsum_fst_combine, zsum_snd_combine, !zsum_np_where_eq in Hden
    by (now rewrite !np_where_eq_length).
  assert (Hntt : zsum (map (fun p => fst p * snd p)
                           (combine (np_where_eq lab k) (np_where_eq pred k)))
                 = k * k * overlap_count k lab pred).
  { now rewrite !np_where_eq_scaled, combine_map_both, ntt_scaled,
      ntt_overlap. }
  rewrite Hntt in Hden. clear Hntt.
  set (A := voxel_count k lab) in *.
  set (B := voxel_count k pred) in *.
  set (I := overlap_count k lab pred) in *.
  set (ntf := zsum (map (fun p => fst p * (1 - snd p)) _)) in *.
  set (nft := zsum (map (fun p => (1 - fst p) * snd p) _)) in *.
  assert (HAB : 0 < k * A + k * B) by nia.
  destruct (k * A + k * B =? 0) eqn:E; [apply Z.eqb_eq in E; lia|].
  cbn [one_minus]. apply (f_equal Ok), (f_equal PyNum).
  rewrite Qc_one_minus. apply Q2Qc_eq_iff.
  replace (ntf + nft) with (k * (A + B) - k * (k * (2 * I))) by lia.
  replace (k * A + k * B) with (k * (A + B)) by ring.
  unfold Z.sub. rewrite inject_Z_plus, inject_Z_opp, !inject_Z_mult.
  field. split; apply inject_Z_nonzero; lia.
Qed.

(** X3. For same-shaped volumes, a label [1 <= k <= 8] and a label that
    occurs in at least one volume, [get_dice_score] stores [k] times the
    Dice coefficient that [getDSC] stores; the two agree at label 1. *)
Theorem get_dice_score_scales_dice_by_label (t r : Image) (k : Z)
  (Hk : 1 <= k <= 8)
  (Hshape : length (pixels t) = length (pixels r))
  (Hpos : 0 < voxel_count k (pixels t) + voxel_count k (pixels r)) :
  exists d1 d2 q,
    getDSC t r = Ok d1 /\ dict_get d1 k = Some (PyNum q) /\
    get_dice_score (GetArrayFromImage_flatten t)
                   (GetArrayFromImage_flatten r) = Ok d2 /\
    dict_get d2 k = Some (PyNum (Q2Qc (inject_Z k) * q)%Qc) /\
    (k = 1 -> dict_get d2 k = dict_get d1 k).
Proof.
  assert (Hl : In k labels_keys) by (apply In_labels_keys; lia).
  assert (Hr : In k range9) by (rewrite range9_eq, <- labels_keys_eq; exact Hl).
  unfold GetArrayFromImage_flatten.
  destruct (getDSC_mapping t r Hshape) as [d1 [Hd1 [_ Hget1]]].
  destruct (get_dice_score_mapping _ _ Hshape) as [d2 [Hd2 [_ Hget2]]].
  exists d1, d2. eexists. split; [exact Hd1|].
  assert (H1 := Hget1 k Hl). assert (H2 := Hget2 k Hr).
  rewrite (getDSC_value_formula t r k Hshape Hpos) in H1.
  rewrite get_dice_score_value_formula in H2 by (lia || assumption).
  cbn [value_or_none] in H1, H2.
  split; [exact H1|]. split; [exact Hd2|].
  rewrite Qc_mult_Q2Qc. split; [exact H2|].
  intros ->. rewrite H1, H2. do 2 f_equal. apply Q2Qc_eq_iff.
  change (inject_Z 1) with 1%Q. ring.
Qed.

Lemma get_dice_score_scales_dice_by_label_witness :
  exists d1 d2 q,
    getDSC square_volume block_volume = Ok d1 /\
    dict_get d1 1 = Some (PyNum q) /\
    get_dice_score (GetArrayFromImage_flatten square_volume)
                   (GetArrayFromImage_flatten block_volume) = Ok d2 /\
    dict_get d2 1 = Some (PyNum (Q2Qc (inject_Z 1) * q)%Qc).
Proof.
  destruct (get_dice_score_scales_dice_by_label square_volume block_volume 1)
    as (d1 & d2 & q & H1 & H2 & H3 & H4 & _).
  - lia.
  - reflexivity.
  - reflexivity.
  - exists d1, d2, q. auto.
Defined.

(** ** Volume similarity *)

Lemma fold_left_ext_dict (f g : dict -> Z -> dict) (ks : list Z) :
  (forall s k, f s k = g s k) ->
  forall s, fold_left f ks s = fold_left g ks s.
Proof.
  intros Hfg. induction ks as [|k ks IH]; intros s; [reflexivity|].
  cbn [fold_left]. now rewrite Hfg, IH.
Qed.

(** X4. Volume similarity is symmetric in [getVS]: swapping the test and
    the result image gives the same mapping. In [get_volumetric_symmetry]
    swapping the two label arrays gives the same mapping unless both
    arrays are unsigned. Two unsigned arrays with different sums give
    different mappings: one of the two differences is below zero and wraps
    around. *)
Theorem volume_similarity_symmetric (t r : Image) (lab2d pred2d : ndarray)
  (Hexact : is_unsigned lab2d && is_unsigned pred2d = false) :
  getVS t r = getVS r t /\
  get_volumetric_symmetry lab2d pred2d
  = get_volumetric_symmetry pred2d lab2d /\
  get_volumetric_symmetry (mk_ndarray UnsignedInt [0; 1])
                          (mk_ndarray UnsignedInt [1; 1])
  <> get_volumetric_symmetry (mk_ndarray UnsignedInt [1; 1])
                             (mk_ndarray UnsignedInt [0; 1]).
Proof.
  split; [|split].
  - unfold getVS. apply fold_left_ext_dict. intros s k. unfold getVS_body.
    do 2 f_equal; lia.
  - unfold get_volumetric_symmetry. apply fold_left_ext_dict. intros s k.
    unfold get_volumetric_symmetry_body, np_subtract_sums, ndarray_where_eq,
      is_unsigned in *.
    cbn [array_dtype array_data] in *.
    rewrite (andb_comm (match array_dtype pred2d with
                        | UnsignedInt => true
                        | _ => false
                        end)), Hexact.
    cbn [wrap_if]. do 2 f_equal; lia.
  - intros H. apply (f_equal (fun d => dict_get d 1)) in H.
    vm_compute in H. discriminate H.
Qed.

Lemma volume_similarity_symmetric_witness :
  getVS square_volume block_volume = getVS block_volume square_volume /\
  get_volumetric_symmetry (mk_ndarray SignedInt [0; 1])
                          (mk_ndarray UnsignedInt [1; 1])
  = get_volumetric_symmetry (mk_ndarray UnsignedInt [1; 1])
                            (mk_ndarray SignedInt [0; 1]).
Proof.
  destruct (volume_similarity_symmetric square_volume block_volume
              (mk_ndarray SignedInt [0; 1]) (mk_ndarray UnsignedInt [1; 1])
              eq_refl) as (H1 & H2 & _).
  exact (conj H1 H2).
Defined.

(** X5. At every label of the label set [getVS] stores the undefined
    marker when the label occurs in neither image, and otherwise
    [1 - |A - B| / (A + B)] for the voxel counts [A] and [B] of the two
    masks: a value of [[0, 1]] that is 1 exactly for equal counts and 0
    exactly when one of the two masks is empty. *)
Theorem getVS_value_characterised (t r : Image) (k : Z)
  (Hk : In k labels_keys) :
  let A := voxel_count k (pixels t) in
  let B := voxel_count k (pixels r) in
  (dict_get (getVS t r) k = Some PyNone <->
   ~ In k (pixels t) /\ ~ In k (pixels r)) /\
  (0 < A + B ->
   exists q, dict_get (getVS t r) k = Some (PyNum q) /\
             q = Q2Qc (1 - inject_Z (Z.abs (A - B)) / inject_Z (A + B)) /\
             (0 <= q)%Qc /\ (q <= 1)%Qc /\
             (q = 1%Qc <-> A = B) /\
             (q = 0%Qc <-> A = 0 \/ B = 0)).
Proof.
  intros A B.
  pose proof (voxel_count_nonneg k (pixels t)) as HA.
  pose proof (voxel_count_nonneg k (pixels r)) as HB.
  fold A in HA. fold B in HB.
  destruct (getVS_volume_similarity t r k Hk) as [Hundef Hdef].
  fold A B in Hundef, Hdef. split.
  - rewrite <- !voxel_count_zero. fold A B. split.
    + intros Hnone.
      destruct (Z.eq_dec (A + B) 0) as [E|E]; [lia|].
      destruct Hdef as [q [Hq _]]; [lia|]. rewrite Hq in Hnone. discriminate.
    + intros [H1 H2]. apply Hundef. lia.
  - intros Hpos. destruct (Hdef Hpos) as (q & Hq & Hval & H0 & H1 & Hone).
    exists q. split; [exact Hq|]. split; [exact Hval|]. split; [exact H0|].
    split; [exact H1|]. split; [exact Hone|].
    rewrite Hval.
    assert (Hfrac : 1 - inject_Z (Z.abs (A - B)) / inject_Z (A + B)
                    == inject_Z (A + B - Z.abs (A - B)) / inject_Z (A + B)).
    { replace (A + B - Z.abs (A - B)) with (A + B + - Z.abs (A - B)) by lia.
      rewrite (inject_Z_plus (A + B) (- Z.abs (A - B))), inject_Z_opp.
      field. apply inject_Z_nonzero. lia. }
    rewrite (proj2 (Q2Qc_eq_iff _ _) Hfrac).
    destruct (Q2Qc_fraction (A + B - Z.abs (A - B)) (A + B))
      as (_ & _ & Hz & _); [lia | exact Hpos |].
    rewrite Hz. lia.
Qed.

Lemma getVS_value_characterised_witness :
  exists q,
    dict_get (getVS square_volume block_volume) 1 = Some (PyNum q) /\
    (0 <= q)%Qc /\ (q <= 1)%Qc.
Proof.
  destruct (getVS_value_characterised square_volume block_volume 1)
    as [_ H].
  - rewrite labels_keys_eq. simpl. tauto.
  - destruct H as (q & Hq & _ & H0 & H1 & _); [reflexivity|].
    exists q. auto.
Defined.

(** ** Identical images *)

(** X6. Comparing an image with itself, [getDSC] and [getVS] never fail
    and store 1 at every label of the label set that occurs in the image.
    At a label that does not occur in it [getVS] stores the undefined
    marker and [getDSC] stores not-a-number. *)
Theorem identical_images_score_one (t : Image) :
  exists d,
    getDSC t t = Ok d /\
    forall k, In k labels_keys ->
      (In k (pixels t) ->
       dict_get d k = Some (PyNum 1%Qc) /\
       dict_get (getVS t t) k = Some (PyNum 1%Qc)) /\
      (~ In k (pixels t) ->
       dict_get d k = Some PyNaN /\
       dict_get (getVS t t) k = Some PyNone).
Proof.
  destruct (getDSC_mapping t t eq_refl) as [d [Hd [_ Hget]]].
  exists d. split; [exact Hd|]. intros k Hk. split.
  - intros Hin. split.
    + now rewrite (Hget k Hk), (getDSC_value_self t k Hin).
    + rewrite (getVS_get t t k Hk). apply voxel_count_pos in Hin.
      rewrite vs_value_defined by lia. do 2 f_equal.
      rewrite Z.sub_diag. apply Q2Qc_zero_div.
  - intros Hout. split.
    + now rewrite (Hget k Hk), (getDSC_value_absent t t k eq_refl Hout Hout).
    + rewrite (getVS_get t t k Hk). apply voxel_count_zero in Hout.
      rewrite Hout. reflexivity.
Qed.

(** ** Symmetry and totality of the Hausdorff loop *)

Lemma directed_distances_raises (sqrtQ : Q -> Q) (A B : list point)
  (e : exn) :
  directed_distances sqrtQ A B = Raise e -> e = ValueError.
Proof.
  destruct A as [|p ps]; destruct B as [|q qs]; cbn; congruence.
Qed.

Lemma hausdorff95_value_comm (sqrtQ : Q -> Q) (k : Z) (t r : Image) :
  hausdorff95_value sqrtQ k t r = hausdorff95_value sqrtQ k r t.
Proof.
  unfold hausdorff95_value. rewrite orb_comm.
  destruct (mask_is_empty (label_mask r k)
            || mask_is_empty (label_mask t k)); [reflexivity|].
  set (T := map (TransformIndexToPhysicalPoint t) _).
  set (R := map (TransformIndexToPhysicalPoint r) _).
  destruct (directed_distances sqrtQ T R) as [d1|e1] eqn:E1;
    destruct (directed_distances sqrtQ R T) as [d2|e2] eqn:E2;
    try reflexivity.
  - do 2 f_equal. apply Q2Qc_eq_iff. apply Q.max_comm.
  - apply directed_distances_raises in E1, E2. congruence.
Qed.

(** X7. The Hausdorff loop is symmetric: swapping the test and the result
    image gives the same mapping, or the same exception. *)
Theorem getHausdorff_symmetric (sqrtQ : Q -> Q) (t r : Image) :
  outcome (getHausdorff sqrtQ t r) = outcome (getHausdorff sqrtQ r t).
Proof.
  rewrite !getHausdorff_outcome. apply for_each_ext. intros s k.
  unfold setter. now rewrite hausdorff95_value_comm.
Qed.

(** What one label contributes: the undefined marker when a mask is empty,
    a number when both boundaries hold a voxel, an exception otherwise. *)
Lemma hausdorff95_value_cases (sqrtQ : Q -> Q) (k : Z) (t r : Image) :
  let bt := nonzero_xyz (boundary_image (BinaryThreshold t k k 1 0)) in
  let br := nonzero_xyz (boundary_image (BinaryThreshold r k k 1 0)) in
  (~ In k (pixels t) \/ ~ In k (pixels r) ->
   hausdorff95_value sqrtQ k t r = Ok PyNone) /\
  (In k (pixels t) -> In k (pixels r) -> bt <> [] -> br <> [] ->
   exists q, hausdorff95_value sqrtQ k t r = Ok (PyNum q)) /\
  (In k (pixels t) -> In k (pixels r) -> bt = [] \/ br = [] ->
   hausdorff95_value sqrtQ k t r = Raise ValueError).
Proof.
  cbv zeta. rewrite !nonzero_xyz_boundary_image,
    !BinaryThreshold_label_mask.
  unfold hausdorff95_value. split; [|split].
  - intros [H|H]; rewrite (mask_empty _ _ H), ?orb_true_r; reflexivity.
  - intros Ht Hr Hbt Hbr.
    rewrite (mask_nonempty t k Ht), (mask_nonempty r k Hr). cbn [orb].
    destruct (boundary_indices (label_mask t k)) as [|p ps];
      [contradiction|].
    destruct (boundary_indices (label_mask r k)) as [|q qs];
      [contradiction|].
    cbn [map directed_distances]. eexists. reflexivity.
  - intros Ht Hr Hb.
    rewrite (mask_nonempty t k Ht), (mask_nonempty r k Hr). cbn [orb].
    destruct (boundary_indices (label_mask t k)) as [|p ps];
      destruct (boundary_indices (label_mask r k)) as [|q qs];
      try reflexivity.
    destruct Hb as [Hb|Hb]; discriminate Hb.
Qed.

(** X8. [getHausdorff] returns a mapping exactly when every label of the
    label set that occurs in both images has a non-empty boundary in both.
    The mapping it returns has the 9 labels as keys, in order, holds the
    undefined marker exactly at the labels that one of the images lacks,
    and a number at every other label. *)
Theorem getHausdorff_returns_iff (sqrtQ : Q -> Q) (t r : Image) :
  ((exists d, outcome (getHausdorff sqrtQ t r) = Ok d) <->
   (forall k, In k labels_keys -> In k (pixels t) -> In k (pixels r) ->
      nonzero_xyz (boundary_image (BinaryThreshold t k k 1 0)) <> [] /\
      nonzero_xyz (boundary_image (BinaryThreshold r k k 1 0)) <> [])) /\
  (forall d, outcome (getHausdorff sqrtQ t r) = Ok d ->
     dict_keys d = [0; 1; 2; 3; 4; 5; 6; 7; 8] /\
     forall k, In k labels_keys ->
       (dict_get d k = Some PyNone <->
        ~ In k (pixels t) \/ ~ In k (pixels r)) /\
       (In k (pixels t) -> In k (pixels r) ->
        exists q, dict_get d k = Some (PyNum q))).
Proof.
  rewrite getHausdorff_outcome.
  assert (Hdec : forall (k : Z) (a : list Z), In k a \/ ~ In k a).
  { intros k a. destruct (in_dec Z.eq_dec k a); tauto. }
  assert (Hnil : forall l : list index3, l = [] \/ l <> []).
  { intros [|x l]; [now left | right; discriminate]. }
  split; [split|].
  - intros [d Hd] k Hk Ht Hr.
    destruct (for_each_setter_inv _ _ _ _ Hd) as [g [Hg _]].
    specialize (Hg k Hk). cbv beta in Hg.
    destruct (hausdorff95_value_cases sqrtQ k t r) as (_ & _ & Hraise).
    destruct (Hnil (nonzero_xyz (boundary_image (BinaryThreshold t k k 1 0))))
      as [E1|E1].
    { rewrite (Hraise Ht Hr (or_introl E1)) in Hg. discriminate. }
    destruct (Hnil (nonzero_xyz (boundary_image (BinaryThreshold r k k 1 0))))
      as [E2|E2].
    { rewrite (Hraise Ht Hr (or_intror E2)) in Hg. discriminate. }
    now split.
  - intros Hcond. eexists.
    apply (for_each_setter_total _
             (fun k => value_or_none (hausdorff95_value sqrtQ k t r))).
    intros k Hk.
    destruct (hausdorff95_value_cases sqrtQ k t r) as (Hnone & Hnum & _).
    destruct (Hdec k (pixels t)) as [Ht|Ht];
      [|rewrite (Hnone (or_introl Ht)); reflexivity].
    destruct (Hdec k (pixels r)) as [Hr|Hr];
      [|rewrite (Hnone (or_intror Hr)); reflexivity].
    destruct (Hcond k Hk Ht Hr) as [Hbt Hbr].
    destruct (Hnum Ht Hr Hbt Hbr) as [q Hq]. rewrite Hq. reflexivity.
  - intros d Hd.
    destruct (for_each_setter_inv _ _ _ _ Hd) as [g [Hg Hfold]].
    split.
    + rewrite Hfold.
      apply (dict_keys_fold g labels_keys [] NoDup_labels_keys).
    + intros k Hk.
      assert (Hget : dict_get d k = Some (g k)).
      { rewrite Hfold. apply (dict_get_fold g). now left. }
      specialize (Hg k Hk). cbv beta in Hg.
      destruct (hausdorff95_value_cases sqrtQ k t r) as (Hnone & Hnum & Hraise).
      rewrite Hget. split.
      * split.
        -- intros Hv. injection Hv as Hv. rewrite Hv in Hg.
           destruct (Hdec k (pixels t)) as [Ht|Ht]; [|now left].
           destruct (Hdec k (pixels r)) as [Hr|Hr]; [|now right].
           exfalso.
           destruct (Hnil (nonzero_xyz
                             (boundary_image (BinaryThreshold t k k 1 0))))
             as [E1|E1].
           { rewrite (Hraise Ht Hr (or_introl E1)) in Hg. discriminate. }
           destruct (Hnil (nonzero_xyz
                             (boundary_image (BinaryThreshold r k k 1 0))))
             as [E2|E2].
           { rewrite (Hraise Ht Hr (or_intror E2)) in Hg. discriminate. }
           destruct (Hnum Ht Hr E1 E2) as [q Hq]. rewrite Hq in Hg.
           discriminate.
        -- intros H. rewrite (Hnone H) in Hg. congruence.
      * intros Ht Hr.
        destruct (Hnil (nonzero_xyz
                          (boundary_image (BinaryThreshold t k k 1 0))))
          as [E1|E1].
        { rewrite (Hraise Ht Hr (or_introl E1)) in Hg. discriminate. }
        destruct (Hnil (nonzero_xyz
                          (boundary_image (BinaryThreshold r k k 1 0))))
          as [E2|E2].
        { rewrite (Hraise Ht Hr (or_intror E2)) in Hg. discriminate. }
        destruct (Hnum Ht Hr E1 E2) as [q Hq]. rewrite Hq in Hg.
        exists q. congruence.
Qed.

(** ** The nearest-neighbour search *)

Lemma Qmin_cases (x y : Q) : Qmin x y = x \/ Qmin x y = y.
Proof.
  unfold Qmin, GenericMinMax.gmin. destruct (x ?= y)%Q; auto.
Qed.

(** The running minimum is one of the values and a lower bound of all. *)
Lemma fold_Qmin_spec (l : list Q) :
  forall init,
  let m := fold_left Qmin l init in
  (m = init \/ In m l) /\ (m <= init)%Q /\ forall x, In x l -> (m <= x)%Q.
Proof.
  induction l as [|a l IH]; intros init; cbn [fold_left].
  - split; [now left|]. split; [apply Qle_refl | intros x []].
  - destruct (IH (Qmin init a)) as (Hin & Hle & Hall). cbv zeta in *.
    split; [|split].
    + destruct Hin as [Hin|Hin]; [|right; now right].
      rewrite Hin. destruct (Qmin_cases init a) as [E|E]; rewrite E.
      * now left.
      * right. now left.
    + eapply Qle_trans; [exact Hle | apply Q.le_min_l].
    + intros x [Hx|Hx].
      * subst x. eapply Qle_trans; [exact Hle | apply Q.le_min_r].
      * now apply Hall.
Qed.

(** The distance returned for [q] is the distance to a point of the set
    that is at least as close as every other point. *)
Lemma nearest_distance_spec (sqrtQ : Q -> Q) (p : point) (ps : list point)
  (q : point) :
  exists a, In a (p :: ps) /\
            nearest_distance sqrtQ p ps q = sqrtQ (sqdist q a) /\
            forall a', In a' (p :: ps) -> (sqdist q a <= sqdist q a')%Q.
Proof.
  unfold nearest_distance.
  destruct (fold_Qmin_spec (map (sqdist q) ps) (sqdist q p))
    as (Hin & Hle & Hall). cbv zeta in *.
  assert (Hbound : forall a', In a' (p :: ps) ->
            (fold_left Qmin (map (sqdist q) ps) (sqdist q p)
             <= sqdist q a')%Q).
  { intros a' [Ha'|Ha']; [now subst a'|].
    apply Hall. now apply in_map. }
  destruct Hin as [Hin|Hin].
  - exists p. split; [now left|]. rewrite Hin. split; [reflexivity|].
    intros a' Ha'. rewrite <- Hin. now apply Hbound.
  - apply in_map_iff in Hin. destruct Hin as [a [Ha Hin]].
    exists a. split; [now right|]. rewrite <- Ha. split; [reflexivity|].
    intros a' Ha'. rewrite Ha. now apply Hbound.
Qed.

(** X9. [getDistancesFromAtoB] on two lists of points raises [ValueError]
    exactly when one of the lists is empty. Otherwise it returns one
    distance for each point of [b], in order: the distance from that point
    to a point of [a] that is nearest to it. The returned list is never
    empty. *)
Theorem getDistancesFromAtoB_nearest (sqrtQ : Q -> Q) (a b : list point) :
  (outcome (getDistancesFromAtoB sqrtQ (PointList a) (PointList b))
   = Raise ValueError <-> a = [] \/ b = []) /\
  (forall d,
     outcome (getDistancesFromAtoB sqrtQ (PointList a) (PointList b)) = Ok d ->
     d <> [] /\ length d = length b /\
     forall i q, nth_error b i = Some q ->
       exists p, In p a /\
                 nth_error d i = Some (sqrtQ (sqdist q p)) /\
                 forall p', In p' a -> (sqdist q p <= sqdist q p')%Q).
Proof.
  rewrite getDistancesFromAtoB_outcome.
  destruct a as [|p ps]; destruct b as [|q0 qs];
    cbn [directed_distances].
  - split; [tauto | discriminate].
  - split; [tauto | discriminate].
  - split; [tauto | discriminate].
  - split.
    + split; [discriminate | intros [H|H]; discriminate H].
    + intros d Hd. injection Hd as Hd. subst d.
      change (nearest_distance sqrtQ p ps q0
              :: map (nearest_distance sqrtQ p ps) qs)
        with (map (nearest_distance sqrtQ p ps) (q0 :: qs)).
      split; [discriminate|]. split; [apply length_map|].
      intros i q Hq.
      destruct (nearest_distance_spec sqrtQ p ps q) as (a & Ha & Hval & Hmin).
      exists a. split; [exact Ha|]. split; [|exact Hmin].
      rewrite nth_error_map, Hq. cbn [option_map]. now rewrite Hval.
Qed.

(** ** An image against itself *)











(** ** Erosion and boundary *)

(** X11. ORIGINAL - ERODED never wraps around: at every voxel the boundary
    image is the plain difference of the mask and the eroded mask, and is
    0 or 1. *)
Theorem boundary_is_plain_difference (mask : Image) (i : nat) :
  nth i (pixels (boundary_image mask)) 0
  = nth i (pixels mask) 0
    - nth i (pixels (erode mask (sitkBall (1, 1, 0)) 0 1 true)) 0 /\
  (nth i (pixels (boundary_image mask)) 0 = 0 \/
   nth i (pixels (boundary_image mask)) 0 = 1).
Proof.
  destruct (Nat.lt_ge_cases i (length (pixels mask))) as [Hlt|Hge].
  - rewrite pixels_boundary_image, nth_map_seq, pixels_erode by exact Hlt.
    unfold boundary_voxel.
    destruct (erode_voxel_cases mask i) as [He|[Hv He]].
    + rewrite He, Z.sub_diag. split; [reflexivity | now left].
    + rewrite He, Hv. split; [reflexivity | now right].
  - rewrite !nth_overflow.
    + split; [reflexivity | now left].
    + unfold erode. cbn [pixels set_pixels].
      now rewrite length_map, length_seq.
    + exact Hge.
    + now rewrite boundary_image_length.
Qed.

Lemma in_bounds_spec (img : Image) (x y z : Z) :
  in_bounds img (x, y, z) = true ->
  let '(nx, ny, nz) := img_size img in
  0 <= x < nx /\ 0 <= y < ny /\ 0 <= z < nz.
Proof.
  unfold in_bounds. destruct (img_size img) as [[nx ny] nz]. intros H.
  repeat (apply andb_prop in H; destruct H as [H ?]).
  repeat match goal with
         | H : (_ <=? _) = true |- _ => apply Z.leb_le in H
         | H : (_ <? _) = true |- _ => apply Z.ltb_lt in H
         end.
  lia.
Qed.

(** An index inside the image is the index of its buffer position. *)
Lemma index_of_offset_of_index (img : Image) (p : index3) :
  in_bounds img p = true ->
  0 <= offset_of_index img p /\
  index_of_offset img (offset_of_index img p) = p.
Proof.
  destruct p as [[x y] z]. intros H. apply in_bounds_spec in H.
  unfold offset_of_index, index_of_offset.
  destruct (img_size img) as [[nx ny] nz]. destruct H as (Hx & Hy & Hz).
  assert (Hyz : 0 <= y + ny * z).
  { assert (0 <= ny * z) by (apply Z.mul_nonneg_nonneg; lia). lia. }
  split.
  { assert (0 <= nx * (y + ny * z)) by (apply Z.mul_nonneg_nonneg; lia).
    lia. }
  assert (E1 : (x + nx * (y + ny * z)) mod nx = x).
  { rewrite (Z.mul_comm nx), Z.mod_add by lia. apply Z.mod_small. lia. }
  assert (E2 : (x + nx * (y + ny * z)) / nx = y + ny * z).
  { rewrite (Z.mul_comm nx), Z.div_add by lia.
    rewrite Z.div_small by lia. lia. }
  assert (E3 : (y + ny * z) mod ny = y).
  { rewrite (Z.mul_comm ny), Z.mod_add by lia. apply Z.mod_small. lia. }
  assert (E4 : (y + ny * z) / ny = z).
  { rewrite (Z.mul_comm ny), Z.div_add by lia.
    rewrite Z.div_small by lia. lia. }
  now rewrite E1, E2, E3, E4.
Qed.

Lemma sitkBall_flat (d : index3) :
  In d (sitkBall (1, 1, 0)) -> snd d = 0.
Proof.
  intros H. vm_compute in H.
  repeat (destruct H as [H|H]; [subst d; reflexivity|]). contradiction.
Qed.

Lemma shift_z (p d : index3) : snd (shift p d) = snd p + snd d.
Proof. destruct p as [[x y] z], d as [[dx dy] dz]. reflexivity. Qed.

(** X12. The erosion is slice-wise: when two images of the same size
    agree on the slice at height [z], their eroded images agree on that
    slice, whatever the other slices hold. *)
Theorem erosion_is_slice_wise (a b : Image) (z : Z)
  (Hsize : img_size a = img_size b)
  (Hlen : length (pixels a) = length (pixels b))
  (Hslice : forall j, snd (index_of_offset a (Z.of_nat j)) = z ->
                      nth j (pixels a) 0 = nth j (pixels b) 0) :
  forall i, snd (index_of_offset a (Z.of_nat i)) = z ->
            nth i (pixels (erode a (sitkBall (1, 1, 0)) 0 1 true)) 0
            = nth i (pixels (erode b (sitkBall (1, 1, 0)) 0 1 true)) 0.
Proof.
  intros i Hz.
  assert (Hidx : forall j, index_of_offset b j = index_of_offset a j).
  { intros j. unfold index_of_offset. now rewrite Hsize. }
  destruct (Nat.lt_ge_cases i (length (pixels a))) as [Hlt|Hge].
  - rewrite !pixels_erode by lia. unfold erode_voxel.
    rewrite !GetPixel_index_of_offset, Hidx, <- (Hslice i Hz).
    destruct (nth i (pixels a) 0 =? 1); [|reflexivity].
    assert (Hext : forall (f g : index3 -> bool) (l : list index3),
              (forall d, In d l -> f d = g d) -> forallb f l = forallb g l).
    { intros f g l. induction l as [|d l IH]; intros H; [reflexivity|].
      cbn [forallb]. rewrite (H d (or_introl eq_refl)), IH; [reflexivity|].
      intros d' Hd'. apply H. now right. }
    match goal with
    | |- (if ?x then _ else _) = (if ?y then _ else _) =>
        assert (Hxy : x = y); [|now rewrite Hxy]
    end.
    apply Hext. intros d Hd. cbv zeta.
    set (q := shift (index_of_offset a (Z.of_nat i)) d).
    assert (Hb : in_bounds b q = in_bounds a q)
      by (unfold in_bounds; now rewrite Hsize).
    rewrite Hb. destruct (in_bounds a q) eqn:Eq; [|reflexivity].
    destruct (index_of_offset_of_index a q Eq) as [Hpos Hq].
    assert (Hoff : offset_of_index b q = offset_of_index a q)
      by (unfold offset_of_index; now rewrite Hsize).
    unfold GetPixel. rewrite Hoff.
    rewrite (Hslice (Z.to_nat (offset_of_index a q))); [reflexivity|].
    rewrite Z2Nat.id by exact Hpos. rewrite Hq. unfold q.
    rewrite shift_z, Hz, (sitkBall_flat d Hd). lia.
  - rewrite !nth_overflow; [reflexivity | |];
      unfold erode; cbn [pixels set_pixels];
      rewrite length_map, length_seq; lia.
Qed.

Lemma erosion_is_slice_wise_witness :
  nth 1 (pixels (erode (volume (2, 1, 2) [1; 1; 0; 1])
                       (sitkBall (1, 1, 0)) 0 1 true)) 0
  = nth 1 (pixels (erode (volume (2, 1, 2) [1; 1; 1; 0])
                         (sitkBall (1, 1, 0)) 0 1 true)) 0.
Proof.
  apply (erosion_is_slice_wise (volume (2, 1, 2) [1; 1; 0; 1])
           (volume (2, 1, 2) [1; 1; 1; 0]) 0).
  - reflexivity.
  - reflexivity.
  - intros [|[|[|[|j]]]] Hj; try reflexivity; discriminate Hj.
  - reflexivity.
Defined.

(** ** A label that fills the image *)

Lemma well_formed_spec (img : Image) :
  well_formed img = true ->
  let '(nx, ny, nz) := img_size img in
  0 < nx /\ 0 < ny /\ 0 < nz /\
  Z.of_nat (length (pixels img)) = nx * ny * nz.
Proof.
  unfold well_formed. destruct (img_size img) as [[nx ny] nz]. intros H.
  repeat (apply andb_prop in H; destruct H as [H ?]).
  repeat match goal with
         | H : (_ <? _) = true |- _ => apply Z.ltb_lt in H
         | H : (_ =? _) = true |- _ => apply Z.eqb_eq in H
         end.
  auto.
Qed.

(** An index inside a well-formed image is a position of its buffer. *)
Lemma in_bounds_offset (img : Image) (p : index3) :
  well_formed img = true -> in_bounds img p = true ->
  (Z.to_nat (offset_of_index img p) < length (pixels img))%nat.
Proof.
  intros Hwf Hin. destruct p as [[x y] z].
  destruct (index_of_offset_of_index img (x, y, z) Hin) as [Hpos _].
  apply well_formed_spec in Hwf. apply in_bounds_spec in Hin.
  unfold offset_of_index in *.
  destruct (img_size img) as [[nx ny] nz].
  destruct Hwf as (Hnx & Hny & Hnz & Hlen).
  destruct Hin as (Hx & Hy & Hz).
  assert (H1 : y + ny * z <= ny * nz - 1) by nia.
  assert (H2 : nx * (y + ny * z) <= nx * (ny * nz - 1))
    by (apply Z.mul_le_mono_nonneg_l; lia).
  assert (H3 : x + nx * (y + ny * z) < nx * ny * nz) by nia.
  lia.
Qed.

(** Under [boundaryToForeground = True] the erosion leaves a mask that
    fills the image unchanged, so its boundary is empty. *)
Lemma boundary_of_filled_mask (mask : Image) :
  well_formed mask = true ->
  Forall (fun v => v = 1) (pixels mask) ->
  nonzero_xyz (boundary_image mask) = [].
Proof.
  intros Hwf Hall. rewrite Forall_forall in Hall.
  unfold nonzero_xyz. rewrite filter_none; [reflexivity|].
  intros i Hi. apply in_seq in Hi. rewrite boundary_image_length in Hi.
  rewrite pixels_boundary_image, nth_map_seq by lia.
  unfold boundary_voxel, erode_voxel. rewrite GetPixel_index_of_offset.
  rewrite (Hall _ (nth_In (pixels mask) 0 (proj2 Hi))). cbn [Z.eqb Pos.eqb].
  replace (forallb _ _) with true; [reflexivity|].
  symmetry. apply forallb_forall. intros d _. cbv zeta.
  destruct (in_bounds mask _) eqn:Eb; [|reflexivity].
  unfold GetPixel.
  rewrite (Hall _ (nth_In (pixels mask) 0 (in_bounds_offset _ _ Hwf Eb))).
  reflexivity.
Qed.

(** A setter loop raises as soon as one of its values does. *)
Lemma for_each_setter_raises (val : Z -> result pyval) (k : Z) (e : exn)
  (ks : list Z) :
  In k ks -> val k = Raise e ->
  (forall j, In j ks -> j <> k -> exists v, val j = Ok v) ->
  forall s, for_each (setter val) ks s = Raise e.
Proof.
  intros Hin Hk. induction ks as [|a ks IH]; intros Hothers s; [destruct Hin|].
  cbn [for_each]. unfold setter at 1.
  destruct (Z.eq_dec a k) as [E|E].
  - subst a. now rewrite Hk.
  - destruct (Hothers a (or_introl eq_refl) E) as [v Hv]. rewrite Hv.
    apply IH.
    + destruct Hin as [Hin|Hin]; [contradiction | exact Hin].
    + intros j Hj. apply Hothers. now right.
Qed.

(** X13. When one label of the label set fills a whole well-formed test
    image and occurs in the result image, [getHausdorff] aborts with
    [ValueError]: the mask is not empty, but its boundary is. *)
Theorem getHausdorff_raises_on_filled_image (sqrtQ : Q -> Q) (t r : Image)
  (k : Z)
  (Hk : In k labels_keys)
  (Hwf : well_formed t = true)
  (Hfill : Forall (fun v => v = k) (pixels t))
  (Hr : In k (pixels r)) :
  outcome (getHausdorff sqrtQ t r) = Raise ValueError.
Proof.
  rewrite getHausdorff_outcome.
  assert (Ht : In k (pixels t)).
  { pose proof (well_formed_spec t Hwf) as Hs.
    destruct (img_size t) as [[nx ny] nz].
    destruct Hs as (Hnx & Hny & Hnz & Hlen).
    destruct (pixels t) as [|v px] eqn:E.
    - cbn [length] in Hlen. nia.
    - inversion Hfill; subst. now left. }
  apply (for_each_setter_raises _ k ValueError); [exact Hk | |].
  - destruct (hausdorff95_value_cases sqrtQ k t r) as (_ & _ & Hraise).
    apply (Hraise Ht Hr). left.
    apply boundary_of_filled_mask.
    + unfold well_formed in *. cbn [img_size BinaryThreshold set_pixels pixels].
      now rewrite length_map.
    + rewrite pixels_BinaryThreshold. unfold indicator.
      apply Forall_forall. intros v Hv. apply in_map_iff in Hv.
      destruct Hv as [w [Hw Hin]]. rewrite Forall_forall in Hfill.
      rewrite (Hfill w Hin), Z.eqb_refl in Hw. now symmetry.
  - intros j Hj Hne.
    destruct (hausdorff95_value_cases sqrtQ j t r) as (Hnone & _ & _).
    exists PyNone. apply Hnone. left. intros Hin.
    rewrite Forall_forall in Hfill. apply Hfill in Hin. contradiction.
Qed.

Lemma getHausdorff_raises_on_filled_image_witness :
  outcome (getHausdorff sqrtQ_floor (volume (2, 2, 1) [3; 3; 3; 3])
                        (volume (2, 2, 1) [3; 0; 0; 0]))
  = Raise ValueError.
Proof.
  apply (getHausdorff_raises_on_filled_image sqrtQ_floor
           (volume (2, 2, 1) [3; 3; 3; 3]) (volume (2, 2, 1) [3; 0; 0; 0]) 3).
  - rewrite labels_keys_eq. simpl. tauto.
  - reflexivity.
  - repeat constructor.
  - simpl. tauto.
Defined.

(** X14. [get_hausdorff_distance] returns no mapping on any input: the
    reshape raises [ValueError] unless each array holds 220 * 220 * 48
    voxels, and the search tree raises [ValueError] on the reshaped
    volume, at the first label. *)
Theorem get_hausdorff_distance_always_raises (sqrtQ : Q -> Q)
  (lab2d pred2d : list Z) :
  outcome (get_hausdorff_distance sqrtQ lab2d pred2d) = Raise ValueError /\
  (N.of_nat (length lab2d) <> (220 * 220 * 48)%N ->
   events (get_hausdorff_distance sqrtQ lab2d pred2d) = []) /\
  (N.of_nat (length lab2d) = (220 * 220 * 48)%N ->
   N.of_nat (length pred2d) = (220 * 220 * 48)%N ->
   events (get_hausdorff_distance sqrtQ lab2d pred2d)
   = [EvKDTree (Array3D (220, 220, 48)%N (np_where_eq lab2d 0))]).
Proof.
  split; [apply get_hausdorff_distance_never_returns|]. split.
  - intros Hne. unfold get_hausdorff_distance. rewrite range9_eq.
    cbn [for_eachM]. unfold get_hausdorff_distance_body, np_reshape.
    rewrite np_where_eq_length. apply N.eqb_neq in Hne. rewrite Hne.
    reflexivity.
  - intros Hl Hp. now rewrite (get_hausdorff_distance_run sqrtQ _ _ Hl Hp).
Qed.

(** ** Loading a case: the pathology mask *)

Lemma combine_map_self (f : Z -> Z) (l : list Z) :
  combine l (map f l) = map (fun v => (v, f v)) l.
Proof.
  induction l as [|v l IH]; [reflexivity|].
  cbn [map combine]. now rewrite IH.
Qed.

Lemma combine_map_r (f : Z -> Z) (a b : list Z) :
  combine a (map f b) = map (fun p => (fst p, f (snd p))) (combine a b).
Proof.
  revert b. induction a as [|x a IH]; intros [|y b]; try reflexivity.
  cbn [map combine fst snd]. now rewrite IH.
Qed.

Lemma size_eqb_eq (a b : index3) : size_eqb a b = true <-> a = b.
Proof.
  destruct a as [[ax ay] az], b as [[bx by_] bz]. unfold size_eqb. split.
  - intros H. repeat (apply andb_prop in H; destruct H as [H ?]).
    repeat match goal with
           | H : (_ =? _) = true |- _ => apply Z.eqb_eq in H
           end.
    congruence.
  - intros H. injection H as -> -> ->. now rewrite !Z.eqb_refl.
Qed.

Lemma pixels_masked_test (t : Image) :
  pixels (Mask t (BinaryThreshold t 9 11 0 1))
  = map (fun v => if (9 <=? v) && (v <=? 11) then 0 else v) (pixels t).
Proof.
  unfold Mask, BinaryThreshold. cbn [pixels set_pixels].
  rewrite combine_map_self, map_map. apply map_ext. intros v. cbn [fst snd].
  destruct ((9 <=? v) && (v <=? 11)); reflexivity.
Qed.

Lemma pixels_masked_result (t r : Image) :
  pixels (Mask (CopyInformation r t) (BinaryThreshold t 9 11 0 1))
  = map (fun p => if (9 <=? snd p) && (snd p <=? 11) then 0 else fst p)
        (combine (pixels r) (pixels t)).
Proof.
  unfold Mask, BinaryThreshold, CopyInformation. cbn [pixels set_pixels].
  rewrite combine_map_r, map_map. apply map_ext. intros p. cbn [fst snd].
  destruct ((9 <=? snd p) && (snd p <=? 11)); reflexivity.
Qed.

Lemma voxel_count_masked (k : Z) (l : list Z) :
  voxel_count k
    (map (fun v => if (9 <=? v) && (v <=? 11) then 0 else v) l)
  = if k =? 0
    then voxel_count 0 l + voxel_count 9 l + voxel_count 10 l
         + voxel_count 11 l
    else if (9 <=? k) && (k <=? 11) then 0 else voxel_count k l.
Proof.
  induction l as [|v l IH].
  - unfold voxel_count. cbn [map count_occ Z.of_nat].
    destruct (k =? 0); [reflexivity|].
    destruct ((9 <=? k) && (k <=? 11)); reflexivity.
  - cbn [map]. rewrite !voxel_count_cons, IH. clear IH.
    destruct (Z.leb_spec 9 v); destruct (Z.leb_spec v 11);
      cbn [andb]; cbv iota;
    repeat match goal with
           | |- context [Z.eqb ?a ?b] =>
               destruct (Z.eqb_spec a b)
           | |- context [Z.leb ?a ?b] =>
               destruct (Z.leb_spec a b)
           end;
      cbn [andb]; cbv iota; lia.
Qed.

(** X15. When the sizes are equal [getImages] returns both images with
    the geometry of the test image and with every voxel whose TEST label
    is 9, 10 or 11 set to 0; every other voxel keeps its label. No label
    9 to 11 is left in the test image, its counts of the labels 1 to 8 are
    unchanged, and its former pathology voxels count as background. *)
Theorem getImages_masks_pathology (t r t' r' : Image)
  (H : getImages t r = Some (t', r')) :
  img_size t = img_size r /\
  (img_size t' = img_size t /\ img_origin t' = img_origin t /\
   img_spacing t' = img_spacing t /\ img_direction t' = img_direction t) /\
  (img_size r' = img_size r /\ img_origin r' = img_origin t /\
   img_spacing r' = img_spacing t /\ img_direction r' = img_direction t) /\
  pixels t'
  = map (fun v => if (9 <=? v) && (v <=? 11) then 0 else v) (pixels t) /\
  pixels r'
  = map (fun p => if (9 <=? snd p) && (snd p <=? 11) then 0 else fst p)
        (combine (pixels r) (pixels t)) /\
  Forall (fun v => v < 9 \/ 11 < v) (pixels t') /\
  (forall k, 1 <= k <= 8 ->
             voxel_count k (pixels t') = voxel_count k (pixels t)) /\
  voxel_count 0 (pixels t')
  = voxel_count 0 (pixels t) + voxel_count 9 (pixels t)
    + voxel_count 10 (pixels t) + voxel_count 11 (pixels t).
Proof.
  unfold getImages in H.
  destruct (size_eqb (img_size t) (img_size r)) eqn:Es; [|discriminate].
  apply size_eqb_eq in Es. injection H as Ht' Hr'.
  assert (Hpt : pixels t'
                = map (fun v => if (9 <=? v) && (v <=? 11) then 0 else v)
                      (pixels t))
    by (rewrite <- Ht'; apply pixels_masked_test).
  split; [exact Es|]. split; [now rewrite <- Ht'|].
  split; [now rewrite <- Hr'|]. split; [exact Hpt|].
  split; [rewrite <- Hr'; apply pixels_masked_result|].
  split; [|split].
  - rewrite Hpt. apply Forall_forall. intros v Hv.
    apply in_map_iff in Hv. destruct Hv as [w [Hw _]].
    destruct ((9 <=? w) && (w <=? 11)) eqn:E; [lia|].
    subst v. destruct (9 <=? w) eqn:E1; destruct (w <=? 11) eqn:E2;
      try discriminate; rewrite ?Z.leb_gt in *; lia.
  - intros k Hk. rewrite Hpt, voxel_count_masked.
    destruct (k =? 0) eqn:E0; [apply Z.eqb_eq in E0; lia|].
    destruct ((9 <=? k) && (k <=? 11)) eqn:E; [|reflexivity].
    apply andb_prop in E. destruct E as [E1 _]. apply Z.leb_le in E1. lia.
  - rewrite Hpt, voxel_count_masked. reflexivity.
Qed.

Lemma getImages_masks_pathology_witness :
  pixels (Mask (volume (2, 2, 1) [0; 3; 9; 11])
               (BinaryThreshold (volume (2, 2, 1) [0; 3; 9; 11]) 9 11 0 1))
  = map (fun v => if (9 <=? v) && (v <=? 11) then 0 else v)
        (pixels (volume (2, 2, 1) [0; 3; 9; 11])).
Proof.
  apply (getImages_masks_pathology (volume (2, 2, 1) [0; 3; 9; 11])
           (volume (2, 2, 1) [0; 3; 3; 5]) _ _ eq_refl).
Defined.

Lemma masked_result_agree (lt : list Z) :
  forall l1 l2,
  length l1 = length l2 ->
  (forall i, ~ (9 <= nth i lt 0 <= 11) -> nth i l1 0 = nth i l2 0) ->
  map (fun p => if (9 <=? snd p) && (snd p <=? 11) then 0 else fst p)
      (combine l1 lt)
  = map (fun p => if (9 <=? snd p) && (snd p <=? 11) then 0 else fst p)
        (combine l2 lt).
Proof.
  induction lt as [|v lt IH]; intros [|x l1] [|y l2] Hlen Hagree;
    try discriminate; try reflexivity.
  cbn [combine map fst snd]. f_equal.
  - destruct ((9 <=? v) && (v <=? 11)) eqn:E; [reflexivity|].
    apply (Hagree 0%nat). cbn [nth]. intros [H1 H2].
    apply Z.leb_le in H1, H2. rewrite H1, H2 in E. discriminate.
  - apply IH; [now injection Hlen|].
    intros i Hi. exact (Hagree (S i) Hi).
Qed.

(** X16. Predictions inside the pathology region are not evaluated: two
    result images of the same size that agree at every voxel whose test
    label is not 9, 10 or 11 are turned into the same image by
    [getImages], and receive the same three mappings. *)
Theorem evaluation_ignores_pathology_region (sqrtQ : Q -> Q)
  (t r1 r2 : Image)
  (Hsize : img_size r1 = img_size r2)
  (Hlen : length (pixels r1) = length (pixels r2))
  (Hagree : forall i, ~ (9 <= nth i (pixels t) 0 <= 11) ->
                      nth i (pixels r1) 0 = nth i (pixels r2) 0) :
  getImages t r1 = getImages t r2 /\
  evaluate_case sqrtQ t r1 = evaluate_case sqrtQ t r2.
Proof.
  assert (Hget : getImages t r1 = getImages t r2).
  { unfold getImages. rewrite Hsize.
    destruct (size_eqb (img_size t) (img_size r2)); [|reflexivity].
    assert (Hpx : pixels (Mask (CopyInformation r1 t)
                               (BinaryThreshold t 9 11 0 1))
                  = pixels (Mask (CopyInformation r2 t)
                                 (BinaryThreshold t 9 11 0 1))).
    { rewrite !pixels_masked_result.
      now apply masked_result_agree. }
    f_equal. f_equal.
    assert (Hrec : forall a b : Image,
              img_size a = img_size b -> img_origin a = img_origin b ->
              img_spacing a = img_spacing b ->
              img_direction a = img_direction b ->
              pixels a = pixels b -> a = b).
    { intros [s1 p1 o1 sp1 d1] [s2 p2 o2 sp2 d2]. cbn. congruence. }
    apply Hrec; try reflexivity; [exact Hsize | exact Hpx]. }
  split; [exact Hget|]. unfold evaluate_case. now rewrite Hget.
Qed.

Lemma evaluation_ignores_pathology_region_witness :
  getImages (volume (2, 1, 1) [9; 1]) (volume (2, 1, 1) [4; 1])
  = getImages (volume (2, 1, 1) [9; 1]) (volume (2, 1, 1) [7; 1]).
Proof.
  apply (evaluation_ignores_pathology_region sqrtQ_floor
           (volume (2, 1, 1) [9; 1]) (volume (2, 1, 1) [4; 1])
           (volume (2, 1, 1) [7; 1])).
  - reflexivity.
  - reflexivity.
  - intros [|[|[|i]]] Hi; try reflexivity.
    exfalso. apply Hi. cbn [nth pixels volume]. lia.
Defined.

(** ** Evaluating one case *)

(** X17. For two well-formed images of equal size the assertion of
    [getImages] passes, [getDSC] returns its mapping of 9 entries on the
    masked images, and the case yields its three mappings exactly when
    [getHausdorff] returns: only the Hausdorff search can abort it. Images
    of different sizes fail the assertion. *)
Theorem evaluate_case_aborts_only_in_hausdorff (sqrtQ : Q -> Q)
  (t r : Image)
  (Hwt : well_formed t = true) (Hwr : well_formed r = true) :
  (img_size t <> img_size r -> evaluate_case sqrtQ t r = None) /\
  (img_size t = img_size r ->
   exists t' r' dsc c,
     getImages t r = Some (t', r') /\
     evaluate_case sqrtQ t r = Some c /\
     getDSC t' r' = Ok dsc /\
     dict_keys dsc = [0; 1; 2; 3; 4; 5; 6; 7; 8] /\
     outcome c
     = match outcome (getHausdorff sqrtQ t' r') with
       | Ok h95 => Ok (dsc, h95, getVS t' r')
       | Raise e => Raise e
       end).
Proof.
  split.
  - intros Hne. unfold evaluate_case, getImages.
    destruct (size_eqb (img_size t) (img_size r)) eqn:E; [|reflexivity].
    apply size_eqb_eq in E. contradiction.
  - intros Hsize.
    assert (Hlen : length (pixels t) = length (pixels r)).
    { apply well_formed_spec in Hwt, Hwr. rewrite <- Hsize in Hwr.
      destruct (img_size t) as [[nx ny] nz].
      destruct Hwt as (_ & _ & _ & H1). destruct Hwr as (_ & _ & _ & H2).
      lia. }
    unfold evaluate_case, getImages.
    rewrite (proj2 (size_eqb_eq _ _) Hsize).
    set (t' := Mask t (BinaryThreshold t 9 11 0 1)).
    set (r' := Mask (CopyInformation r t) (BinaryThreshold t 9 11 0 1)).
    assert (Hlen' : length (pixels t') = length (pixels r')).
    { unfold t', r'. rewrite pixels_masked_test, pixels_masked_result.
      rewrite !length_map, length_combine. lia. }
    destruct (getDSC_mapping t' r' Hlen') as [dsc [Hdsc [Hkeys _]]].
    exists t', r', dsc. eexists.
    split; [reflexivity|]. split; [reflexivity|].
    split; [exact Hdsc|]. split; [exact Hkeys|].
    rewrite Hdsc. rewrite !outcome_bind. cbn [outcome lift snd].
    rewrite !outcome_bind.
    destruct (outcome (getHausdorff sqrtQ t' r')); reflexivity.
Qed.

Lemma evaluate_case_aborts_only_in_hausdorff_witness :
  exists c, evaluate_case sqrtQ_floor square_volume block_volume = Some c.
Proof.
  destruct (evaluate_case_aborts_only_in_hausdorff sqrtQ_floor square_volume
              block_volume eq_refl eq_refl) as [_ H].
  destruct (H eq_refl) as (t' & r' & dsc & c & _ & Hc & _).
  exists c. exact Hc.
Defined.

(** ** Physical coordinates *)

(** X18. The squared physical distance between two voxels does not depend
    on the origin of the image: two images with the same spacing and
    direction give the same value. When the direction is the identity it
    is the distance of the index offsets weighted by the spacing. *)
Theorem physical_distance_ignores_origin (a b : Image) (p q : index3)
  (Hspacing : img_spacing a = img_spacing b)
  (Hdirection : img_direction a = img_direction b) :
  (sqdist (TransformIndexToPhysicalPoint a p)
          (TransformIndexToPhysicalPoint a q)
   == sqdist (TransformIndexToPhysicalPoint b p)
             (TransformIndexToPhysicalPoint b q))%Q /\
  (img_direction a = identity_direction ->
   let '(px, py, pz) := p in
   let '(qx, qy, qz) := q in
   let '(sx, sy, sz) := img_spacing a in
   sqdist (TransformIndexToPhysicalPoint a p)
          (TransformIndexToPhysicalPoint a q)
   == (sx * inject_Z (px - qx)) * (sx * inject_Z (px - qx))
      + (sy * inject_Z (py - qy)) * (sy * inject_Z (py - qy))
      + (sz * inject_Z (pz - qz)) * (sz * inject_Z (pz - qz)))%Q.
Proof.
  destruct p as [[px py] pz], q as [[qx qy] qz].
  unfold TransformIndexToPhysicalPoint. rewrite <- Hspacing, <- Hdirection.
  destruct (img_origin a) as [[oax oay] oaz].
  destruct (img_origin b) as [[obx oby] obz].
  destruct (img_spacing a) as [[sx sy] sz].
  split.
  - destruct (img_direction a) as [[[[d11 d12] d13] [[d21 d22] d23]]
                                     [[d31 d32] d33]].
    unfold sqdist. ring.
  - intros Hid. rewrite Hid. unfold identity_direction, sqdist.
    unfold Z.sub. rewrite !inject_Z_plus, !inject_Z_opp. ring.
Qed.

Lemma physical_distance_ignores_origin_witness :
  Qeq (sqdist (TransformIndexToPhysicalPoint (slab_at (0, 0, 0)%Q) (0, 0, 0))
              (TransformIndexToPhysicalPoint (slab_at (0, 0, 0)%Q) (1, 0, 1)))
      (sqdist (TransformIndexToPhysicalPoint (slab_at (5, 7, 9)%Q) (0, 0, 0))
              (TransformIndexToPhysicalPoint (slab_at (5, 7, 9)%Q)
                                             (1, 0, 1))).
Proof.
  apply (physical_distance_ignores_origin (slab_at (0, 0, 0)%Q)
           (slab_at (5, 7, 9)%Q) (0, 0, 0) (1, 0, 1)); reflexivity.
Defined.

(** ** The percentile *)

Lemma insert_sorted_In (x y : Q) (l : list Q) :
  In y (insert_sorted x l) <-> y = x \/ In y l.
Proof.
  induction l as [|z l IH]; cbn [insert_sorted].
  - cbn. intuition auto.
  - destruct (Qle_bool x z); cbn [In]; [intuition auto|].
    rewrite IH. intuition auto.
Qed.

Lemma np_sort_In (y : Q) (l : list Q) : In y (np_sort l) <-> In y l.
Proof.
  unfold np_sort. induction l as [|x l IH]; cbn [fold_right]; [tauto|].
  rewrite insert_sorted_In, IH. cbn [In]. intuition auto.
Qed.

Lemma insert_sorted_length (x : Q) (l : list Q) :
  length (insert_sorted x l) = S (length l).
Proof.
  induction l as [|z l IH]; cbn [insert_sorted]; [reflexivity|].
  destruct (Qle_bool x z); cbn [length]; [reflexivity | now rewrite IH].
Qed.

Lemma np_sort_length (l : list Q) : length (np_sort l) = length l.
Proof.
  unfold np_sort. induction l as [|x l IH]; cbn [fold_right]; [reflexivity|].
  rewrite insert_sorted_length. cbn [length]. now rewrite IH.
Qed.

(** A value interpolated between [a] and [b] lies between them. *)
Lemma interpolation_between (a b f : Q) :
  (0 <= f -> f <= 1 ->
   (a <= a + (b - a) * f /\ a + (b - a) * f <= b) \/
   (b <= a + (b - a) * f /\ a + (b - a) * f <= a))%Q.
Proof.
  intros H0 H1. destruct (Qlt_le_dec b a) as [Hba|Hab].
  - right.
    assert (Hp : (0 <= (a - b) * f)%Q)
      by (apply Qmult_le_0_compat; [lra | exact H0]).
    assert (Hq : (0 <= (a - b) * (1 - f))%Q)
      by (apply Qmult_le_0_compat; lra).
    split; lra.
  - left.
    assert (Hp : (0 <= (b - a) * f)%Q)
      by (apply Qmult_le_0_compat; [lra | exact H0]).
    assert (Hq : (0 <= (b - a) * (1 - f))%Q)
      by (apply Qmult_le_0_compat; lra).
    split; lra.
Qed.

Lemma np_percentile_bounds (d : list Q) (q : Z) :
  d <> [] -> 0 <= q <= 100 ->
  exists x y, In x d /\ In y d /\
              (x <= np_percentile d q)%Q /\ (np_percentile d q <= y)%Q.
Proof.
  intros Hd Hq.
  unfold np_percentile.
  set (s := np_sort d).
  set (n := Z.of_nat (length s)).
  set (rank := (inject_Z (q * (n - 1)) / 100)%Q).
  set (lo := Qfloor rank).
  set (hi := Z.min (lo + 1) (n - 1)).
  assert (Hn : 1 <= n).
  { unfold n, s. rewrite np_sort_length.
    destruct d as [|x d]; [contradiction | cbn [length]; lia]. }
  assert (Hrank0 : (0 <= rank)%Q).
  { unfold rank. apply Qle_shift_div_l; [reflexivity|].
    rewrite Qmult_0_l. change 0%Q with (inject_Z 0).
    rewrite <- Zle_Qle. nia. }
  assert (Hrank1 : (rank <= inject_Z (n - 1))%Q).
  { unfold rank. apply Qle_shift_div_r; [reflexivity|].
    change 100%Q with (inject_Z 100). rewrite <- inject_Z_mult.
    rewrite <- Zle_Qle. nia. }
  assert (Hlo : 0 <= lo <= n - 1).
  { unfold lo. split.
    - rewrite <- (Qfloor_Z 0). now apply Qfloor_resp_le.
    - rewrite <- (Qfloor_Z (n - 1)). now apply Qfloor_resp_le. }
  assert (Hhi : 0 <= hi <= n - 1) by (unfold hi; lia).
  assert (Hf0 : (0 <= rank - inject_Z lo)%Q).
  { pose proof (Qfloor_le rank). fold lo in H. lra. }
  assert (Hf1 : (rank - inject_Z lo <= 1)%Q).
  { pose proof (Qlt_floor rank) as H. fold lo in H.
    rewrite inject_Z_plus in H. change (inject_Z 1) with 1%Q in H. lra. }
  assert (Hnth : forall i, 0 <= i <= n - 1 -> In (nth (Z.to_nat i) s 0%Q) d).
  { intros i Hi. apply np_sort_In. fold s. apply nth_In. unfold n in Hi. lia. }
  pose proof (Hnth lo Hlo) as Ha. pose proof (Hnth hi Hhi) as Hb.
  destruct (interpolation_between (nth (Z.to_nat lo) s 0%Q)
              (nth (Z.to_nat hi) s 0%Q) (rank - inject_Z lo)%Q Hf0 Hf1)
    as [[H1 H2]|[H1 H2]].
  - exists (nth (Z.to_nat lo) s 0%Q), (nth (Z.to_nat hi) s 0%Q). auto.
  - exists (nth (Z.to_nat hi) s 0%Q), (nth (Z.to_nat lo) s 0%Q). auto.
Qed.

(** X19. The percentile of a non-empty array, for a rank between 0 and
    100, lies between two elements of the array: it is never below the
    smallest nor above the largest distance. *)
Theorem np_percentile_between (d : list Q) (q : Z)
  (Hd : d <> []) (Hq : 0 <= q <= 100) :
  exists x y, In x d /\ In y d /\
              (x <= np_percentile d q)%Q /\ (np_percentile d q <= y)%Q.
Proof. exact (np_percentile_bounds d q Hd Hq). Qed.

Lemma np_percentile_between_witness :
  exists x y, In x [3; 1; 2]%Q /\ In y [3; 1; 2]%Q /\
              (x <= np_percentile [3; 1; 2] 95)%Q /\
              (np_percentile [3; 1; 2] 95 <= y)%Q.
Proof.
  apply (np_percentile_between [3; 1; 2]%Q 95).
  - discriminate.
  - lia.
Defined.

(** ** Sign of the Hausdorff distance *)

Lemma dict_get_fold_other (g : Z -> pyval) (k : Z) (ks : list Z) :
  forall d, ~ In k ks ->
  dict_get (fold_left (fun s k => dict_set s k (g k)) ks d) k = dict_get d k.
Proof.
  induction ks as [|a ks IH]; intros d Hn; [reflexivity|].
  cbn [fold_left]. rewrite IH by (intros H; apply Hn; now right).
  rewrite dict_get_set. destruct (a =? k) eqn:E; [|reflexivity].
  apply Z.eqb_eq in E. exfalso. apply Hn. now left.
Qed.

Lemma directed_distances_nonneg (sqrtQ : Q -> Q) (A B : list point)
  (d : list Q) :
  (forall x, 0 <= sqrtQ x)%Q ->
  directed_distances sqrtQ A B = Ok d ->
  d <> [] /\ Forall (fun x => 0 <= x)%Q d.
Proof.
  intros Hs. destruct A as [|p ps]; destruct B as [|q qs]; try discriminate.
  cbn [directed_distances]. intros H. injection H as <-. split.
  - discriminate.
  - change (nearest_distance sqrtQ p ps q
            :: map (nearest_distance sqrtQ p ps) qs)
      with (map (nearest_distance sqrtQ p ps) (q :: qs)).
    apply Forall_forall. intros x Hx. apply in_map_iff in Hx.
    destruct Hx as [b [<- _]]. apply Hs.
Qed.

Lemma sqrtQ_floor_nonneg (x : Q) : (0 <= sqrtQ_floor x)%Q.
Proof.
  unfold sqrtQ_floor, Qle. cbn [Qnum Qden].
  pose proof (Z.sqrt_nonneg (Qnum x * Z.pos (Qden x))). lia.
Qed.

(** X20. For a square root that is never negative, no entry of the
    mapping that [getHausdorff] returns is a negative number. *)
Theorem hausdorff_is_never_negative (sqrtQ : Q -> Q) (t r : Image)
  (d : dict) (k : Z) (v : Qc)
  (Hsqrt : forall x, (0 <= sqrtQ x)%Q)
  (Hd : outcome (getHausdorff sqrtQ t r) = Ok d)
  (Hv : dict_get d k = Some (PyNum v)) :
  (0 <= v)%Qc.
Proof.
  rewrite getHausdorff_outcome in Hd.
  destruct (for_each_setter_inv _ _ _ _ Hd) as [g [Hg Hfold]].
  destruct (in_dec Z.eq_dec k labels_keys) as [Hk|Hk].
  - rewrite Hfold, (dict_get_fold g k labels_keys [] (or_introl Hk)) in Hv.
    injection Hv as Hv. specialize (Hg k Hk). cbv beta in Hg.
    rewrite Hv in Hg. unfold hausdorff95_value in Hg.
    destruct (mask_is_empty _ || mask_is_empty _); [discriminate|].
    destruct (directed_distances sqrtQ _ _) as [d1|e1] eqn:E1;
      [|discriminate].
    destruct (directed_distances sqrtQ _ _) as [d2|e2] eqn:E2 in Hg;
      [|discriminate].
    injection Hg as Hg. subst v.
    destruct (directed_distances_nonneg sqrtQ _ _ d1 Hsqrt E1)
      as [Hne Hpos].
    destruct (np_percentile_bounds d1 95 Hne) as (x & y & Hx & _ & Hle & _);
      [lia|].
    rewrite Forall_forall in Hpos. specialize (Hpos x Hx).
    unfold Qcle. cbn [this Q2Qc]. rewrite !Qred_correct.
    apply (Qle_trans _ (np_percentile d1 95)); [lra | apply Q.le_max_l].
  - rewrite Hfold, (dict_get_fold_other g k labels_keys [] Hk) in Hv.
    discriminate.
Qed.

Lemma hausdorff_is_never_negative_witness :
  exists d v,
    outcome (getHausdorff sqrtQ_floor square_volume block_volume) = Ok d /\
    dict_get d 1 = Some (PyNum v) /\ (0 <= v)%Qc.
Proof.
  destruct (outcome (getHausdorff sqrtQ_floor square_volume block_volume))
    as [d|e] eqn:Hd; [|vm_compute in Hd; discriminate].
  destruct (dict_get d 1) as [[|v| |b]|] eqn:Hv;
    try (exfalso; vm_compute in Hd; injection Hd as Hd; subst d;
         vm_compute in Hv; discriminate).
  exists d, v. split; [reflexivity|]. split; [exact Hv|].
  exact (hausdorff_is_never_negative sqrtQ_floor square_volume block_volume
           d 1 v sqrtQ_floor_nonneg Hd Hv).
Defined.
